(** * HoloPlayConfig: the observable configuration store of holoplay-webxr

    A shallow embedding of [src/HoloPlayConfig.js]: the JavaScript numbers
    the derived getters compute with, the object heap that [deepFreeze]
    walks, the promise that re-arms the change event, and the store itself
    with its setters, getters, constructor and provider callbacks.

    Conventions of the embedding.
    - A JavaScript number is [NaN], an infinity, the negative zero, or a
      finite value.  Finite values are real numbers: the rounding of IEEE
      binary64 arithmetic is not modelled, every other case distinction of
      the language (signed zeros, infinities, NaN) is.
    - Objects live in a heap and are named by their location; an object is
      its list of own string-keyed data properties and a flag saying that it
      is frozen.  Functions are objects as far as [deepFreeze] is concerned.
    - Code that can throw returns a [result].  An exception ends the run:
      the state it leaves behind is not tracked.
    - Listeners are passive: a listener records the event it is sent and
      the store it can read at that moment. *)

From Stdlib Require Import Reals Lra Lia ZArith String Bool.
From stdpp Require Import base option list.

(** ** JavaScript numbers *)

Module JsNumber.

Local Open Scope R_scope.

Inductive number : Type :=
  | NaN
  | Inf (neg : bool)      (* [Inf false] is Infinity, [Inf true] is -Infinity *)
  | NZero                 (* -0 *)
  | Fin (x : R).          (* a finite value; [Fin 0] is +0 *)

Definition Rltb (x y : R) : bool := if Rlt_dec x y then true else false.
Definition Reqb (x y : R) : bool := if Req_dec_T x y then true else false.

(** The mathematical value of a finite number and the sign bit. *)
Definition val (a : number) : R :=
  match a with Fin x => x | _ => 0 end.

Definition signbit (a : number) : bool :=
  match a with
  | NaN => false
  | Inf s => s
  | NZero => true
  | Fin x => Rltb x 0
  end.

Definition is_zero (a : number) : bool :=
  match a with
  | NZero => true
  | Fin x => Reqb x 0
  | _ => false
  end.


(** The finite number of value [x]; when [x] is zero, [neg] picks the zero. *)
Definition signed (neg : bool) (x : R) : number :=
  if Reqb x 0 then (if neg then NZero else Fin 0) else Fin x.

(** [a * b] *)
Definition mul (a b : number) : number :=
  match a, b with
  | NaN, _ => NaN
  | _, NaN => NaN
  | Inf s, Inf t => Inf (xorb s t)
  | Inf s, _ => if is_zero b then NaN else Inf (xorb s (signbit b))
  | _, Inf t => if is_zero a then NaN else Inf (xorb (signbit a) t)
  | _, _ => signed (xorb (signbit a) (signbit b)) (val a * val b)
  end.

(** [a / b] *)
Definition div (a b : number) : number :=
  match a, b with
  | NaN, _ => NaN
  | _, NaN => NaN
  | Inf _, Inf _ => NaN
  | Inf s, _ => Inf (xorb s (signbit b))
  | _, Inf t => signed (xorb (signbit a) t) 0
  | _, _ =>
      if is_zero b
      then (if is_zero a then NaN else Inf (xorb (signbit a) (signbit b)))
      else signed (xorb (signbit a) (signbit b)) (val a / val b)
  end.

(** [Math.round]: the nearest integer, ties towards +Infinity. *)
Definition round (a : number) : number :=
  match a with
  | Fin x => signed (Rltb x 0) (IZR (Zfloor (x + 1 / 2)))
  | _ => a
  end.

(** [Math.floor] and [Math.ceil] *)
Definition floor (a : number) : number :=
  match a with
  | Fin x => signed (Rltb x 0) (IZR (Zfloor x))
  | _ => a
  end.

Definition ceil (a : number) : number :=
  match a with
  | Fin x => signed (Rltb x 0) (IZR (Zceil x))
  | _ => a
  end.

(** [Math.sqrt] *)
Definition sqrt (a : number) : number :=
  match a with
  | NaN => NaN
  | Inf false => Inf false
  | Inf true => NaN
  | NZero => NZero
  | Fin x => if Rltb x 0 then NaN else Fin (R_sqrt.sqrt x)
  end.

(** [Math.log2] *)
Definition Rlog2 (x : R) : R := ln x / ln 2.

Definition log2 (a : number) : number :=
  match a with
  | NaN => NaN
  | Inf false => Inf false
  | Inf true => NaN
  | NZero => Inf true
  | Fin x =>
      if Rltb x 0 then NaN
      else if Reqb x 0 then Inf true
      else signed false (Rlog2 x)
  end.

(** [2 ** a] *)
Definition pow2 (a : number) : number :=
  match a with
  | NaN => NaN
  | Inf false => Inf false
  | Inf true => Fin 0
  | NZero => Fin 1
  | Fin x => Fin (Rpower 2 x)
  end.

(** The order [Math.max] uses: the numeric one, with -0 below +0. *)
Definition below (a b : number) : bool :=
  match a, b with
  | NaN, _ | _, NaN => false
  | Inf true, Inf true => false
  | Inf true, _ => true
  | _, Inf true => false
  | Inf false, _ => false
  | _, Inf false => true
  | _, _ => Rltb (val a) (val b)
            || (Reqb (val a) (val b) && signbit a && negb (signbit b))
  end.

(** [Math.max(a, b)] *)
Definition max (a b : number) : number :=
  match a, b with
  | NaN, _ => NaN
  | _, NaN => NaN
  | _, _ => if below a b then b else a
  end.

(** [Math.cos] and [Math.atan] *)
Definition cos (a : number) : number :=
  match a with
  | NaN | Inf _ => NaN
  | NZero => Fin 1
  | Fin x => Fin (Rtrigo_def.cos x)
  end.

Definition atan (a : number) : number :=
  match a with
  | NaN => NaN
  | Inf false => Fin (PI / 2)
  | Inf true => Fin (- (PI / 2))
  | NZero => NZero
  | Fin x => Fin (Ratan.atan x)
  end.


(** ToBoolean on a number: the zeros and NaN are falsy. *)
Definition truthy (a : number) : bool :=
  match a with
  | NaN | NZero => false
  | Inf _ => true
  | Fin x => negb (Reqb x 0)
  end.

(** [Math.PI] *)
Definition Math_PI : number := Fin PI.

End JsNumber.

(** ** Results of code that can throw *)

Inductive result (A : Type) : Type :=
  | Ok (a : A)
  | TypeError            (* the code throws a TypeError *)
  | Unsupported          (* a coercion of a string or an object to a number *)
  | OutOfFuel.           (* the recursion bound of [deepFreeze_fuel] was hit *)

Arguments Ok {A} a.
Arguments TypeError {A}.
Arguments Unsupported {A}.
Arguments OutOfFuel {A}.

Definition bind {A B : Type} (r : result A) (k : A -> result B) : result B :=
  match r with
  | Ok a => k a
  | TypeError => TypeError
  | Unsupported => Unsupported
  | OutOfFuel => OutOfFuel
  end.

#[global] Instance result_ret : MRet result := @Ok.
#[global] Instance result_bind : MBind result :=
  fun A B k r => bind r k.

(** ** Values, objects and the heap *)

Module Heap.

Import JsNumber.

(** Locations are indices into the heap. *)
Abbreviation loc := nat (only parsing).

Inductive value : Type :=
  | VUndef
  | VNull
  | VBool (b : bool)
  | VNum (n : number)
  | VStr (s : string)
  | VRef (l : loc).       (* an object or a function *)

Record object : Type := mkObject {
  props : list (string * value);   (* own properties, in creation order *)
  frozen : bool
}.

Abbreviation memory := (list object) (only parsing).

(** [Object.getOwnPropertyNames(o)] for an object of the heap. *)
Definition ownPropertyNames (o : object) : list string := map fst (props o).

(** The own property [k] of an object, [undefined] when there is none. *)
Fixpoint lookup_prop (ps : list (string * value)) (k : string) : value :=
  match ps with
  | [] => VUndef
  | (k', v) :: ps' => if String.eqb k' k then v else lookup_prop ps' k
  end.

(** [v[k]]: reading a property of [undefined] or [null] throws; numbers,
    booleans and strings have none of the properties this program reads. *)
Definition get (h : memory) (v : value) (k : string) : result value :=
  match v with
  | VUndef | VNull => TypeError
  | VRef l =>
      match h !! l with
      | Some o => Ok (lookup_prop (props o) k)
      | None => Ok VUndef
      end
  | _ => Ok VUndef
  end.

(** [Object.freeze(v)]: freezes an object, leaves anything else alone. *)
Definition freeze_object (o : object) : object :=
  {| props := props o; frozen := true |}.

Definition freeze (h : memory) (v : value) : memory :=
  match v with
  | VRef l => alter freeze_object l h
  | _ => h
  end.

(** [Object.isFrozen(v)]: what is not an object counts as frozen. *)
Definition isFrozen (h : memory) (v : value) : bool :=
  match v with
  | VRef l =>
      match h !! l with
      | Some o => frozen o
      | None => true
      end
  | _ => true
  end.

(** [v !== null && (typeof v === 'object' || typeof v === 'function')] *)
Definition is_object (v : value) : bool :=
  match v with
  | VRef _ => true
  | _ => false
  end.

(** The own properties [deepFreeze] iterates over.  The properties of a
    string are its characters and its length, those never hold an object. *)
Definition own_values (h : memory) (v : value) : list value :=
  match v with
  | VRef l =>
      match h !! l with
      | Some o => map (fun k => lookup_prop (props o) k) (ownPropertyNames o)
      | None => []
      end
  | _ => []
  end.

(** [deepFreeze(o)].  The function returns [o] itself, so the result of the
    model is the heap it leaves.  [fuel] bounds the depth of the recursion. *)
Fixpoint deepFreeze_fuel (fuel : nat) (h : memory) (o : value) : result memory :=
  match fuel with
  | O => OutOfFuel
  | S fuel' =>
      let h1 := freeze h o in
      match o with
      | VUndef => Ok h1
      | VNull => TypeError      (* Object.getOwnPropertyNames(null) *)
      | _ =>
          fold_left
            (fun acc child =>
               hi ← acc;
               if is_object child && negb (isFrozen hi child)
               then deepFreeze_fuel fuel' hi child
               else Ok hi)
            (own_values h1 o) (Ok h1)
      end
  end.

(** The number of objects that are not frozen yet bounds the recursion. *)
Definition unfrozen (h : memory) : nat :=
  length (filter (fun o => frozen o = false) h).

Definition deepFreeze (h : memory) (o : value) : result memory :=
  deepFreeze_fuel (S (unfrozen h)) h o.





(** ToNumber on the values whose conversion needs no parsing. *)
Definition to_number (v : value) : result number :=
  match v with
  | VUndef => Ok NaN
  | VNull => Ok (Fin 0)
  | VBool b => Ok (Fin (if b then 1 else 0))
  | VNum n => Ok n
  | VStr _ | VRef _ => Unsupported
  end.

(** ToBoolean *)
Definition to_boolean (v : value) : bool :=
  match v with
  | VUndef | VNull => false
  | VBool b => b
  | VNum n => truthy n
  | VStr s => match s with EmptyString => false | String _ _ => true end
  | VRef _ => true
  end.

End Heap.

(** ** The configuration store *)

Module Store.

Import JsNumber Heap.

(** The backing fields of the store object. *)
Record fields : Type := mkFields {
  _calibration : value;
  _tileHeight : value;
  _numViews : value;
  _targetX : value;
  _targetY : value;
  _targetZ : value;
  _trackballX : value;
  _trackballY : value;
  _targetDiam : value;
  _fovy : value;
  _depthiness : value;
  _inlineView : value
}.

(** The configurable parameters, one per getter/setter pair. *)
Inductive param : Type :=
  | tileHeight | numViews | targetX | targetY | targetZ
  | trackballX | trackballY | targetDiam | fovy | depthiness | inlineView.

(** [this._p]: the backing field of a parameter. *)
Definition field (p : param) (f : fields) : value :=
  match p with
  | tileHeight => _tileHeight f
  | numViews => _numViews f
  | targetX => _targetX f
  | targetY => _targetY f
  | targetZ => _targetZ f
  | trackballX => _trackballX f
  | trackballY => _trackballY f
  | targetDiam => _targetDiam f
  | fovy => _fovy f
  | depthiness => _depthiness f
  | inlineView => _inlineView f
  end.

(** [this._p = v] *)
Definition write (p : param) (v : value) (f : fields) : fields :=
  let '(mkFields c th nv tx ty tz bx by_ td fv dp iv) := f in
  match p with
  | tileHeight => mkFields c v nv tx ty tz bx by_ td fv dp iv
  | numViews => mkFields c th v tx ty tz bx by_ td fv dp iv
  | targetX => mkFields c th nv v ty tz bx by_ td fv dp iv
  | targetY => mkFields c th nv tx v tz bx by_ td fv dp iv
  | targetZ => mkFields c th nv tx ty v bx by_ td fv dp iv
  | trackballX => mkFields c th nv tx ty tz v by_ td fv dp iv
  | trackballY => mkFields c th nv tx ty tz bx v td fv dp iv
  | targetDiam => mkFields c th nv tx ty tz bx by_ v fv dp iv
  | fovy => mkFields c th nv tx ty tz bx by_ td v dp iv
  | depthiness => mkFields c th nv tx ty tz bx by_ td fv v iv
  | inlineView => mkFields c th nv tx ty tz bx by_ td fv dp v
  end.

(** [this._calibration = v] *)
Definition write_calibration (v : value) (f : fields) : fields :=
  let '(mkFields _ th nv tx ty tz bx by_ td fv dp iv) := f in
  mkFields v th nv tx ty tz bx by_ td fv dp iv.

(** *** Promises, microtasks and listeners *)

(** The only callback ever handed to [then]: [() => fireChanged(true)]. *)
Inductive job : Type := FireChanged.

Record promise : Type := mkPromise {
  fulfilled : bool;
  reactions : list job      (* the callbacks registered while it is pending *)
}.

Inductive level : Type := Error | Warn.

(** Everything the module can read or change: the heap, the store object,
    the promises and the microtask queue of the agent, the listeners of the
    event target with what they were sent, and the console. *)
Record world : Type := mkWorld {
  heap : memory;
  this : fields;
  _ensureConfigChangeEvent : option nat;  (* a resolver, by its promise *)
  promises : list promise;
  microtasks : list job;
  listeners : list nat;
  delivered : list (nat * fields);        (* listener, store at dispatch *)
  console : list (level * string)
}.

Definition with_heap (h : memory) (w : world) : world :=
  mkWorld h (this w) (_ensureConfigChangeEvent w) (promises w) (microtasks w)
    (listeners w) (delivered w) (console w).

Definition with_this (f : fields) (w : world) : world :=
  mkWorld (heap w) f (_ensureConfigChangeEvent w) (promises w) (microtasks w)
    (listeners w) (delivered w) (console w).

Definition with_ensure (r : option nat) (w : world) : world :=
  mkWorld (heap w) (this w) r (promises w) (microtasks w)
    (listeners w) (delivered w) (console w).

Definition with_promises (ps : list promise) (w : world) : world :=
  mkWorld (heap w) (this w) (_ensureConfigChangeEvent w) ps (microtasks w)
    (listeners w) (delivered w) (console w).

Definition with_microtasks (q : list job) (w : world) : world :=
  mkWorld (heap w) (this w) (_ensureConfigChangeEvent w) (promises w) q
    (listeners w) (delivered w) (console w).

Definition with_listeners (ls : list nat) (w : world) : world :=
  mkWorld (heap w) (this w) (_ensureConfigChangeEvent w) (promises w)
    (microtasks w) ls (delivered w) (console w).

Definition with_delivered (d : list (nat * fields)) (w : world) : world :=
  mkWorld (heap w) (this w) (_ensureConfigChangeEvent w) (promises w)
    (microtasks w) (listeners w) d (console w).

Definition with_console (c : list (level * string)) (w : world) : world :=
  mkWorld (heap w) (this w) (_ensureConfigChangeEvent w) (promises w)
    (microtasks w) (listeners w) (delivered w) c.

(** [addEventListener('on-config-changed', o)]: a listener is kept once. *)
Definition addEventListener (o : nat) (w : world) : world :=
  if bool_decide (o ∈ listeners w) then w
  else with_listeners (listeners w ++ [o]) w.

Definition removeEventListener (o : nat) (w : world) : world :=
  with_listeners (filter (fun o' => o' ≠ o) (listeners w)) w.

(** [this.dispatchEvent(new Event('on-config-changed'))]: every listener is
    called, in registration order, and sees the store as it is now. *)
Definition dispatchEvent (w : world) : world :=
  with_delivered (delivered w ++ map (fun o => (o, this w)) (listeners w)) w.

(** [new Promise(r => { this._ensureConfigChangeEvent = r; })]: the executor
    runs at once and stores the resolver of the new promise. *)
Definition new_promise (w : world) : nat * world :=
  let p := length (promises w) in
  (p, with_ensure (Some p) (with_promises (promises w ++ [mkPromise false []]) w)).

(** [promise.then(j)]: queued at once when the promise is already fulfilled,
    registered otherwise. *)
Definition then_ (p : nat) (j : job) (w : world) : world :=
  match promises w !! p with
  | Some pr =>
      if fulfilled pr
      then with_microtasks (microtasks w ++ [j]) w
      else with_promises (<[p := mkPromise false (reactions pr ++ [j])]> (promises w)) w
  | None => w
  end.

(** Calling the resolver of promise [p]: the first call fulfils it and queues
    its reactions, a later call does nothing. *)
Definition resolve (p : nat) (w : world) : world :=
  match promises w !! p with
  | Some pr =>
      if fulfilled pr then w
      else with_microtasks (microtasks w ++ reactions pr)
             (with_promises (<[p := mkPromise true []]> (promises w)) w)
  | None => w
  end.

(** [fireChanged(dispatch)] *)
Definition fireChanged (dispatch : bool) (w : world) : world :=
  let w1 := if dispatch then dispatchEvent w else w in
  let '(changePromise, w2) := new_promise w1 in
  then_ changePromise FireChanged w2.

Definition run_job (j : job) (w : world) : world :=
  match j with
  | FireChanged => fireChanged true w
  end.

(** A microtask checkpoint: the queued jobs run once the current script or
    callback has returned.  A job queued by one of them would run in the
    same checkpoint; [fireChanged] queues none, see [checkpoint_queue]. *)
Definition checkpoint (w : world) : world :=
  fold_left (fun w' j => run_job j w') (microtasks w) (with_microtasks [] w).

(** [this._ensureConfigChangeEvent()] *)
Definition ensureConfigChangeEvent (w : world) : result world :=
  match _ensureConfigChangeEvent w with
  | Some p => Ok (resolve p w)
  | None => TypeError       (* calling undefined *)
  end.

(** *** Setters *)

(** [set calibration(v)] *)
Definition set_calibration (v : value) (w : world) : result world :=
  h ← deepFreeze (heap w) v;
  ensureConfigChangeEvent (with_this (write_calibration v (this w)) (with_heap h w)).

(** [set p(v)] for a configurable parameter [p] *)
Definition set (p : param) (v : value) (w : world) : result world :=
  ensureConfigChangeEvent (with_this (write p v (this w)) w).

(** *** Getters *)

(** [get calibration()] and [get p()] *)
Definition calibration (w : world) : value := _calibration (this w).
Definition get_param (p : param) (w : world) : value := field p (this w).

(** [this.calibration.k.value] *)
Definition calibration_value (k : string) (w : world) : result value :=
  e ← get (heap w) (calibration w) k;
  get (heap w) e "value".

(** [get aspect()] *)
Definition aspect (w : world) : result number :=
  screenW ← calibration_value "screenW" w;
  screenH ← calibration_value "screenH" w;
  a ← to_number screenW;
  b ← to_number screenH;
  Ok (div a b).

(** [get tileWidth()] *)
Definition tileWidth (w : world) : result number :=
  a ← aspect w;
  h ← to_number (get_param tileHeight w);
  Ok (round (mul h a)).

(** [get framebufferWidth()], with its local constant [numPixels] first *)
Definition numPixels (w : world) : result number :=
  tw ← tileWidth w;
  th ← to_number (get_param tileHeight w);
  nv ← to_number (get_param numViews w);
  Ok (mul (mul tw th) nv).

Definition framebufferWidth (w : world) : result number :=
  numPixels ← numPixels w;
  tw ← tileWidth w;
  Ok (pow2 (ceil (log2 (max (sqrt numPixels) tw)))).

(** [get quiltWidth()] *)
Definition quiltWidth (w : world) : result number :=
  fw ← framebufferWidth w;
  tw ← tileWidth w;
  Ok (floor (div fw tw)).

(** [get quiltHeight()] *)
Definition quiltHeight (w : world) : result number :=
  qw ← quiltWidth w;
  nv ← to_number (get_param numViews w);
  Ok (ceil (div nv qw)).

(** [get framebufferHeight()] *)
Definition framebufferHeight (w : world) : result number :=
  qh ← quiltHeight w;
  th ← to_number (get_param tileHeight w);
  Ok (pow2 (ceil (log2 (mul qh th)))).

(** [get viewCone()] *)
Definition viewCone (w : world) : result number :=
  vc ← calibration_value "viewCone" w;
  a ← to_number vc;
  d ← to_number (get_param depthiness w);
  Ok (mul (div (mul a d) (Fin 180)) Math_PI).

(** [get tilt()] *)
Definition tilt (w : world) : result number :=
  screenH ← calibration_value "screenH" w;
  screenW ← calibration_value "screenW" w;
  slope ← calibration_value "slope" w;
  sw ← to_number screenW;
  sl ← to_number slope;
  sh ← to_number screenH;
  flipImageX ← calibration_value "flipImageX" w;
  Ok (mul (div sh (mul sw sl))
          (if to_boolean flipImageX then Fin (-1) else Fin 1)).

(** [get subp()] *)
Definition subp (w : world) : result number :=
  screenW ← calibration_value "screenW" w;
  sw ← to_number screenW;
  Ok (div (Fin 1) (mul sw (Fin 3))).

(** [get pitch()] *)
Definition pitch (w : world) : result number :=
  screenW ← calibration_value "screenW" w;
  DPI ← calibration_value "DPI" w;
  sw ← to_number screenW;
  dpi ← to_number DPI;
  let screenInches := div sw dpi in
  p ← calibration_value "pitch" w;
  pv ← to_number p;
  slope ← calibration_value "slope" w;
  sl ← to_number slope;
  Ok (mul (mul pv screenInches) (cos (atan (div (Fin 1) sl)))).

(** The derived getters by name, and a read of one of them: the value it
    returns together with the world it leaves. *)
Inductive getter : Type :=
  | g_aspect | g_tileWidth | g_framebufferWidth | g_quiltWidth
  | g_quiltHeight | g_framebufferHeight | g_viewCone | g_tilt | g_subp
  | g_pitch.

Definition read (g : getter) (w : world) : result number * world :=
  match g with
  | g_aspect => (aspect w, w)
  | g_tileWidth => (tileWidth w, w)
  | g_framebufferWidth => (framebufferWidth w, w)
  | g_quiltWidth => (quiltWidth w, w)
  | g_quiltHeight => (quiltHeight w, w)
  | g_framebufferHeight => (framebufferHeight w, w)
  | g_viewCone => (viewCone w, w)
  | g_tilt => (tilt w, w)
  | g_subp => (subp w, w)
  | g_pitch => (pitch w, w)
  end.

(** *** Construction *)

Definition kDefaultEyeHeight : number := Fin 1.6.

(** The heap the module starts with: [kFakeCalibration] at location 0 and
    the twelve [{ value: ... }] objects it refers to after it. *)
Definition envelope (x : R) : object :=
  {| props := [("value"%string, VNum (Fin x))]; frozen := false |}.

Definition module_heap : memory :=
  [ {| props :=
         [ ("configVersion", VStr "1.0");
           ("pitch", VRef 1);
           ("slope", VRef 2);
           ("center", VRef 3);
           ("viewCone", VRef 4);
           ("invView", VRef 5);
           ("verticalAngle", VRef 6);
           ("DPI", VRef 7);
           ("screenW", VRef 8);
           ("screenH", VRef 9);
           ("flipImageX", VRef 10);
           ("flipImageY", VRef 11);
           ("flipSubp", VRef 12) ]%string;
       frozen := false |};
    envelope 45;
    envelope (-5);
    envelope (-0.5);
    envelope 40;
    envelope 1;
    envelope 0;
    envelope 338;
    envelope 250;
    envelope 250;
    envelope 0;
    envelope 0;
    envelope 0 ].

Definition kFakeCalibration : value := VRef 0.

(** The object [new] hands to the constructor, in the world of the module. *)
Definition blank : fields :=
  mkFields VUndef VUndef VUndef VUndef VUndef VUndef VUndef VUndef VUndef
    VUndef VUndef VUndef.

Definition start (h : memory) : world :=
  mkWorld h blank None [] [] [] [] [].

(** The success and the error callback handed to [HoloPlayCore.Client]. *)
Record device : Type := mkDevice { device_calibration : value }.
Record message : Type := mkMessage { devices : list device }.

Definition console_log (l : level) (s : string) (w : world) : world :=
  with_console (console w ++ [(l, s)]) w.

Definition on_message (msg : message) (w : world) : result world :=
  if (length (devices msg) <? 1)%nat
  then Ok (console_log Error "No HoloPlay devices found!" w)
  else
    let w1 :=
      if (1 <? length (devices msg))%nat
      then console_log Warn
             "More than one HoloPlay device found... using the first one" w
      else w in
    match devices msg with
    | d :: _ => set_calibration (device_calibration d) w1
    | [] => TypeError        (* msg.devices[0] is undefined *)
    end.

Definition on_error (w : world) : result world :=
  Ok (console_log Error "Error creating HoloPlay client:" w).

(** The constructor of the store.  Creating the client only registers the
    two callbacks: they run later, as events of their own. *)
Definition constructor (w : world) : result world :=
  let w := fireChanged false w in
  w ← set_calibration kFakeCalibration w;
  w ← set tileHeight (VNum (Fin 320)) w;
  w ← set numViews (VNum (Fin 2)) w;
  w ← set trackballX (VNum (Fin 0)) w;
  w ← set trackballY (VNum (Fin 0)) w;
  w ← set targetX (VNum (Fin 0)) w;
  w ← set targetY (VNum kDefaultEyeHeight) w;
  w ← set targetZ (VNum (Fin (-0.5))) w;
  w ← set targetDiam (VNum (Fin 2.0)) w;
  w ← set fovy (VNum (mul (div (Fin 13.0) (Fin 180)) Math_PI)) w;
  w ← set depthiness (VNum (Fin 1.25)) w;
  set inlineView (VNum (Fin 1)) w.

Definition makeConfig : result world := constructor (start module_heap).

(** [getHoloPlayConfig()]: the store is made on the first call and kept. *)
Definition getHoloPlayConfig (config : option world) : result world :=
  match config with
  | None => makeConfig
  | Some w => Ok w
  end.

(** *** Runs *)

(** What can happen to a store: a consumer calls a setter, changes its
    subscription or creates an object, the script or callback that is
    running returns and the microtasks run, the client calls back. *)
Inductive action : Type :=
  | SetParam (p : param) (v : value)
  | SetCalibration (v : value)
  | Subscribe (o : nat)
  | Unsubscribe (o : nat)
  | Alloc (o : object)
  | Checkpoint
  | Message (msg : message)
  | ClientError.

Definition step (a : action) (w : world) : result world :=
  match a with
  | SetParam p v => set p v w
  | SetCalibration v => set_calibration v w
  | Subscribe o => Ok (addEventListener o w)
  | Unsubscribe o => Ok (removeEventListener o w)
  | Alloc o => Ok (with_heap (heap w ++ [o]) w)
  | Checkpoint => Ok (checkpoint w)
  | Message msg => on_message msg w
  | ClientError => on_error w
  end.

Fixpoint run (acts : list action) (w : world) : result world :=
  match acts with
  | [] => Ok w
  | a :: acts' => w' ← step a w; run acts' w'
  end.

(** The notifications listener [o] has received, oldest first. *)
Definition received (o : nat) (w : world) : list fields :=
  map snd (filter (fun e => e.1 = o) (delivered w)).

End Store.

(** ** The states and relations the theorems speak about *)

Module Notions.

Import JsNumber Heap Store.

(** The store as the constructor leaves it: the placeholder calibration is
    frozen, the defaults are set, and the first of the constructor's setter
    calls has fulfilled the promise of the change event. *)
Definition default_world : world :=
  mkWorld (map freeze_object module_heap)
    (mkFields kFakeCalibration
       (VNum (Fin 320)) (VNum (Fin 2))
       (VNum (Fin 0)) (VNum kDefaultEyeHeight) (VNum (Fin (-0.5)))
       (VNum (Fin 0)) (VNum (Fin 0))
       (VNum (Fin 2.0))
       (VNum (mul (div (Fin 13.0) (Fin 180)) Math_PI))
       (VNum (Fin 1.25)) (VNum (Fin 1)))
    (Some 0%nat) [mkPromise true []] [FireChanged] [] [] [].

(** The same store once the script that made it has returned. *)
Definition ready_world : world := checkpoint default_world.

(** The change event is armed: the promise whose resolver the store holds is
    pending, its only reaction is [fireChanged(true)], nothing is queued. *)
Definition armed (w : world) : Prop :=
  ∃ p, _ensureConfigChangeEvent w = Some p
       ∧ promises w !! p = Some (mkPromise false [FireChanged])
       ∧ microtasks w = [].

(** The change event is due: that promise is fulfilled and the one job that
    dispatches the event is queued. *)
Definition due (w : world) : Prop :=
  ∃ p, _ensureConfigChangeEvent w = Some p
       ∧ promises w !! p = Some (mkPromise true [])
       ∧ microtasks w = [FireChanged].







(** [l] names an object that can be reached from the value [v] by reading
    own properties. *)
Inductive reach (h : memory) : value -> loc -> Prop :=
  | reach_here l o : h !! l = Some o -> reach h (VRef l) l
  | reach_child l c l' :
      c ∈ own_values h (VRef l) -> reach h c l' -> reach h (VRef l) l'.


(** [h'] is [h] with more objects frozen and nothing else changed. *)
Definition freezes (h h' : memory) : Prop :=
  Forall2 (fun o o' => props o' = props o ∧ (frozen o = true -> frozen o' = true))
    h h'.

(** One step of the loop over the properties of an object. *)
Definition visit (fuel : nat) (acc : result memory) (child : value)
  : result memory :=
  hi ← acc;
  if is_object child && negb (isFrozen hi child)
  then deepFreeze_fuel fuel hi child
  else Ok hi.

(** The heap after a call: more objects are frozen, the argument is, its
    properties are, and so are the properties of every object the call
    froze. *)
Definition left_by (h : memory) (v : value) (h' : memory) : Prop :=
  freezes h h'
  ∧ isFrozen h' v = true
  ∧ (∀ c, c ∈ own_values h' v -> isFrozen h' c = true)
  ∧ (∀ l, isFrozen h (VRef l) = false -> isFrozen h' (VRef l) = true ->
          ∀ c, c ∈ own_values h' (VRef l) -> isFrozen h' c = true).

(** The constructed store after [store.tileHeight = 0]. *)
Definition zero_height_world : world :=
  with_this (write tileHeight (VNum (Fin 0)) (this default_world)) default_world.

(** The stores the program can be in: the constructor has returned, and
    anything that can happen has happened since, without an exception. *)
Definition reachable (w : world) : Prop :=
  ∃ acts, (w0 ← makeConfig; run acts w0) = Ok w.

(** What holds of every such store: the change event is armed or due, and
    no listener is registered twice. *)
Definition constructed (w : world) : Prop :=
  (armed w ∨ due w) ∧ NoDup (listeners w).

(** The constructed store once its script has returned and a consumer has
    subscribed listener 7. *)
Definition subscribed_world : world := addEventListener 7 ready_world.

(** A store to whose heap a caller has added three objects: an object [a]
    at location 13 with [a.mid] at 14 and [a.mid.leaf] at 15, of which the
    caller has frozen the middle one only. *)
Definition nested_heap : memory :=
  [ {| props := [("mid"%string, VRef 14)]; frozen := false |};
    {| props := [("leaf"%string, VRef 15)]; frozen := true |};
    {| props := [("flag"%string, VBool true)]; frozen := false |} ].

Definition nested_world : world :=
  with_heap (heap ready_world ++ nested_heap) ready_world.

(** An action that calls no setter: a change of subscription, a new object,
    a checkpoint, an error of the client, a message without a device. *)
Definition quiet (a : action) : Prop :=
  match a with
  | SetParam _ _ | SetCalibration _ => False
  | Message msg => devices msg = []
  | Subscribe _ | Unsubscribe _ | Alloc _ | Checkpoint | ClientError => True
  end.

(** An action other than the subscription of listener [o]. *)
Definition keeps_out (o : nat) (a : action) : Prop :=
  match a with
  | Subscribe o' => o' ≠ o
  | _ => True
  end.

(** The shape of a calibration record: the objects in the properties of
    [v] have no object in their own properties. *)
Definition record_shaped (h : memory) (v : value) : Prop :=
  ∀ c, c ∈ own_values h v -> ∀ c', c' ∈ own_values h c -> is_object c' = false.

(** [-a] *)
Definition opposite (a : number) : number :=
  match a with
  | NaN => NaN
  | Inf s => Inf (negb s)
  | NZero => Fin 0
  | Fin x => if Reqb x 0 then NZero else Fin (- x)
  end.

End Notions.

(** ** Facts about numbers *)

Module NumberFacts.

Import JsNumber.
Local Open Scope R_scope.

Lemma Rltb_true x y : x < y -> Rltb x y = true.
Proof. intros H. unfold Rltb. destruct (Rlt_dec x y); [reflexivity | contradiction]. Qed.

Lemma Rltb_false x y : y <= x -> Rltb x y = false.
Proof. intros H. unfold Rltb. destruct (Rlt_dec x y); [lra | reflexivity]. Qed.

Lemma Reqb_true x y : x = y -> Reqb x y = true.
Proof. intros H. unfold Reqb. destruct (Req_dec_T x y); [reflexivity | contradiction]. Qed.

Lemma Reqb_false x y : x <> y -> Reqb x y = false.
Proof. intros H. unfold Reqb. destruct (Req_dec_T x y); [contradiction | reflexivity]. Qed.

Lemma signed_nonzero s x : x <> 0 -> signed s x = Fin x.
Proof. intros H. unfold signed. now rewrite Reqb_false. Qed.

Lemma signed_false x : signed false x = Fin x.
Proof.
  unfold signed, Reqb. destruct (Req_dec_T x 0); congruence.
Qed.

(** Products and quotients of finite numbers away from zero. *)
Lemma mul_fin a b c : c <> 0 -> a * b = c -> mul (Fin a) (Fin b) = Fin c.
Proof. intros Hc <-. cbn. now apply signed_nonzero. Qed.

Lemma div_fin a b c :
  b <> 0 -> c <> 0 -> a / b = c -> div (Fin a) (Fin b) = Fin c.
Proof.
  intros Hb Hc <-. cbn. rewrite (Reqb_false b 0) by assumption.
  now apply signed_nonzero.
Qed.

Lemma round_fin x k :
  k <> 0%Z -> IZR k <= x + 1 / 2 < IZR k + 1 -> round (Fin x) = Fin (IZR k).
Proof.
  intros Hk Hx. cbn. rewrite (Zfloor_eq k) by assumption.
  apply signed_nonzero. intros H. apply eq_IZR in H. contradiction.
Qed.

Lemma floor_fin x k :
  k <> 0%Z -> IZR k <= x < IZR k + 1 -> floor (Fin x) = Fin (IZR k).
Proof.
  intros Hk Hx. cbn. rewrite (Zfloor_eq k) by assumption.
  apply signed_nonzero. intros H. apply eq_IZR in H. contradiction.
Qed.

Lemma ceil_fin x k :
  k <> 0%Z -> IZR k - 1 < x <= IZR k -> ceil (Fin x) = Fin (IZR k).
Proof.
  intros Hk Hx. cbn. rewrite (Zceil_eq k) by assumption.
  apply signed_nonzero. intros H. apply eq_IZR in H. contradiction.
Qed.

Lemma sqrt_fin x : 0 <= x -> sqrt (Fin x) = Fin (R_sqrt.sqrt x).
Proof. intros H. cbn. now rewrite Rltb_false. Qed.

Lemma max_fin_l a b : b < a -> max (Fin a) (Fin b) = Fin a.
Proof.
  intros H. cbn. rewrite (Rltb_false a b) by lra.
  rewrite (Reqb_false a b) by lra. reflexivity.
Qed.

Lemma max_fin_r a b : a < b -> max (Fin a) (Fin b) = Fin b.
Proof. intros H. cbn. now rewrite Rltb_true. Qed.

(** The binary logarithm and the powers of two. *)
Lemma ln2_pos : 0 < ln 2.
Proof. rewrite <- ln_1. apply ln_increasing; lra. Qed.

Lemma Rpower2_log2 x : 0 < x -> Rpower 2 (Rlog2 x) = x.
Proof.
  intros H. unfold Rpower, Rlog2.
  replace (ln x / ln 2 * ln 2) with (ln x).
  - now apply exp_ln.
  - field. pose proof ln2_pos. lra.
Qed.

Lemma Rlog2_Rpower2 y : Rlog2 (Rpower 2 y) = y.
Proof.
  unfold Rlog2. rewrite ln_Rpower. field. pose proof ln2_pos. lra.
Qed.

Lemma Rpower2_le x y : x <= y -> Rpower 2 x <= Rpower 2 y.
Proof. intros H. apply Rle_Rpower; lra. Qed.

Lemma Rlog2_le x y : 0 < x -> x <= y -> Rlog2 x <= Rlog2 y.
Proof.
  intros Hx Hxy. unfold Rlog2. pose proof ln2_pos as H2.
  apply Rmult_le_compat_r; [left; now apply Rinv_0_lt_compat |].
  destruct Hxy as [Hlt | ->]; [left; now apply ln_increasing | right; reflexivity].
Qed.

Lemma Rpower2_Z k : Rpower 2 (IZR k) = powerRZ 2 k.
Proof. symmetry. apply powerRZ_Rpower. lra. Qed.

Lemma log2_fin x : 0 < x -> log2 (Fin x) = Fin (Rlog2 x).
Proof.
  intros H. cbn. rewrite Rltb_false by lra. rewrite Reqb_false by lra.
  apply signed_false.
Qed.

(** [2 ** Math.ceil(y)] is a power of two whatever the sign of the zero. *)
Lemma pow2_ceil_fin y : pow2 (ceil (Fin y)) = Fin (powerRZ 2 (Zceil y)).
Proof.
  cbn. unfold signed, Reqb.
  destruct (Req_dec_T (IZR (Zceil y)) 0) as [H0 | H0].
  - apply eq_IZR in H0. rewrite H0. cbn.
    destruct (Rltb y 0); cbn; [reflexivity |].
    unfold Rpower. rewrite Rmult_0_l. now rewrite exp_0.
  - cbn. now rewrite Rpower2_Z.
Qed.

Lemma pow2_ceil_log2 x :
  0 < x -> pow2 (ceil (log2 (Fin x))) = Fin (powerRZ 2 (Zceil (Rlog2 x))).
Proof. intros H. rewrite log2_fin by assumption. apply pow2_ceil_fin. Qed.

(** The exponent [Zceil (Rlog2 x)] is the least one whose power reaches [x]. *)
Lemma power_ceil_log2_ge x : 0 < x -> x <= powerRZ 2 (Zceil (Rlog2 x)).
Proof.
  intros H. rewrite <- Rpower2_Z. rewrite <- (Rpower2_log2 x) at 1 by assumption.
  apply Rpower2_le. apply Zceil_bound.
Qed.

Lemma Zceil_IZR k : Zceil (IZR k) = k.
Proof. apply Zceil_eq. lra. Qed.

Lemma power_ceil_log2_least x j :
  0 < x -> x <= powerRZ 2 j -> (Zceil (Rlog2 x) <= j)%Z.
Proof.
  intros H Hj. rewrite <- (Zceil_IZR j). apply Zceil_le.
  rewrite <- (Rlog2_Rpower2 (IZR j)). rewrite Rpower2_Z.
  now apply Rlog2_le.
Qed.

Lemma powerRZ2_le j k : (j <= k)%Z -> powerRZ 2 j <= powerRZ 2 k.
Proof.
  intros H. rewrite <- !Rpower2_Z. apply Rpower2_le. now apply IZR_le.
Qed.

Lemma powerRZ2_pos k : 0 < powerRZ 2 k.
Proof. apply powerRZ_lt. lra. Qed.

Lemma ceil_log2_eq x k :
  powerRZ 2 (k - 1) < x <= powerRZ 2 k -> Zceil (Rlog2 x) = k.
Proof.
  intros [Hlo Hhi].
  assert (0 < x) as Hx by (pose proof (powerRZ2_pos (k - 1)); lra).
  apply Z.le_antisymm.
  - now apply power_ceil_log2_least.
  - destruct (Z_le_gt_dec k (Zceil (Rlog2 x))) as [|Hgt]; [assumption | exfalso].
    assert (Zceil (Rlog2 x) <= k - 1)%Z as Hle by lia.
    pose proof (power_ceil_log2_ge x Hx) as Hge.
    pose proof (powerRZ2_le _ _ Hle). lra.
Qed.

(** The corner cases of the language, as the operations above have them. *)
Example round_half_up : round (Fin 2.5) = Fin 3.
Proof. apply (round_fin 2.5 3); [lia | lra]. Qed.

Example round_minus_half : round (Fin (-0.5)) = NZero.
Proof.
  unfold round. rewrite (Zfloor_eq 0) by lra. rewrite Rltb_true by lra.
  unfold signed. now rewrite Reqb_true.
Qed.

Example ceil_minus_half : ceil (Fin (-0.5)) = NZero.
Proof.
  unfold ceil. rewrite (Zceil_eq 0) by lra. rewrite Rltb_true by lra.
  unfold signed. now rewrite Reqb_true.
Qed.

Example div_by_minus_zero : div (Fin 1) NZero = Inf true.
Proof.
  unfold div, is_zero, signbit. rewrite Reqb_false by lra.
  now rewrite Rltb_false by lra.
Qed.

Example div_zero_zero : div (Fin 0) (Fin 0) = NaN.
Proof. unfold div, is_zero. now rewrite Reqb_true. Qed.

Example max_zeros : max NZero (Fin 0) = Fin 0.
Proof.
  unfold max, below, val, signbit. rewrite (Rltb_false 0 0) by lra.
  now rewrite Reqb_true.
Qed.

Example pow2_minus_infinity : pow2 (ceil (log2 (Fin 0))) = Fin 0.
Proof.
  unfold log2. rewrite Rltb_false by lra. now rewrite Reqb_true.
Qed.
#[global] Arguments mul : simpl never.
#[global] Arguments div : simpl never.
#[global] Arguments round : simpl never.
#[global] Arguments floor : simpl never.
#[global] Arguments ceil : simpl never.
#[global] Arguments sqrt : simpl never.
#[global] Arguments log2 : simpl never.
#[global] Arguments pow2 : simpl never.
#[global] Arguments max : simpl never.
#[global] Arguments cos : simpl never.
#[global] Arguments atan : simpl never.
#[global] Arguments ge : simpl never.

End NumberFacts.

(** ** The store the constructor builds *)

Module DefaultStore.

Import JsNumber Heap Store Notions NumberFacts.
Local Open Scope R_scope.

Lemma makeConfig_default : makeConfig = Ok default_world.
Proof. vm_compute. reflexivity. Qed.

Lemma default_calibration_value k x :
  In (k, x) [("pitch", 45); ("slope", -5); ("center", -0.5); ("viewCone", 40);
             ("invView", 1); ("verticalAngle", 0); ("DPI", 338);
             ("screenW", 250); ("screenH", 250); ("flipImageX", 0);
             ("flipImageY", 0); ("flipSubp", 0)]%string ->
  calibration_value k default_world = Ok (VNum (Fin x)).
Proof.
  cbn [In]. intros H.
  repeat (destruct H as [H | H]; [injection H as <- <-; reflexivity |]).
  contradiction.
Qed.

Ltac placeholder k x :=
  rewrite (default_calibration_value k x) by (cbn [In]; tauto).

Lemma sqrt_between x a b :
  0 <= a -> 0 <= b -> a * a < x -> x <= b * b -> a < R_sqrt.sqrt x <= b.
Proof.
  intros Ha Hb Hlo Hhi. split.
  - rewrite <- (sqrt_square a) at 1 by assumption.
    apply sqrt_lt_1; nra.
  - rewrite <- (sqrt_square b) by assumption.
    apply sqrt_le_1; nra.
Qed.

Lemma default_aspect : aspect default_world = Ok (Fin 1).
Proof.
  unfold aspect. placeholder "screenW"%string 250. placeholder "screenH"%string 250.
  cbn. f_equal. apply div_fin; lra.
Qed.

Lemma default_tileWidth : tileWidth default_world = Ok (Fin 320).
Proof.
  unfold tileWidth. rewrite default_aspect. cbn. f_equal.
  rewrite (mul_fin 320 1 320) by lra.
  apply (round_fin 320 320); [lia | lra].
Qed.

Lemma default_numPixels : numPixels default_world = Ok (Fin 204800).
Proof.
  unfold numPixels. rewrite default_tileWidth. cbn. f_equal.
  rewrite (mul_fin 320 320 102400) by lra.
  apply mul_fin; lra.
Qed.

Lemma default_framebufferWidth : framebufferWidth default_world = Ok (Fin 512).
Proof.
  unfold framebufferWidth. rewrite default_numPixels, default_tileWidth.
  cbn. f_equal.
  pose proof (sqrt_between 204800 320 512) as [Hlo Hhi]; try lra.
  pose proof (sqrt_between 204800 256 512) as [Hlo' _]; try lra.
  rewrite sqrt_fin by lra. rewrite max_fin_l by lra.
  rewrite pow2_ceil_log2 by lra.
  rewrite (ceil_log2_eq _ 9); [f_equal |]; unfold powerRZ; simpl; lra.
Qed.

Lemma default_quiltWidth : quiltWidth default_world = Ok (Fin 1).
Proof.
  unfold quiltWidth. rewrite default_framebufferWidth, default_tileWidth.
  cbn. f_equal.
  rewrite (div_fin 512 320 (8 / 5)) by lra.
  apply (floor_fin _ 1); [lia | lra].
Qed.

Lemma default_quiltHeight : quiltHeight default_world = Ok (Fin 2).
Proof.
  unfold quiltHeight. rewrite default_quiltWidth. cbn. f_equal.
  rewrite (div_fin 2 1 2) by lra.
  apply (ceil_fin _ 2); [lia | lra].
Qed.

Lemma default_framebufferHeight :
  framebufferHeight default_world = Ok (Fin 1024).
Proof.
  unfold framebufferHeight. rewrite default_quiltHeight. cbn. f_equal.
  rewrite (mul_fin 2 320 640) by lra.
  rewrite pow2_ceil_log2 by lra.
  rewrite (ceil_log2_eq _ 10); [f_equal |]; unfold powerRZ; simpl; lra.
Qed.

Lemma default_fovy :
  mul (div (Fin 13.0) (Fin 180)) Math_PI = Fin (13 / 180 * PI).
Proof.
  pose proof PI_RGT_0 as Hpi.
  rewrite (div_fin 13.0 180 (13 / 180)) by lra.
  apply mul_fin; nra.
Qed.

End DefaultStore.

(** ** Facts about [deepFreeze] *)

Module HeapFacts.

Import Heap Notions.

Lemma freezes_refl h : freezes h h.
Proof. apply Forall_Forall2_diag, Forall_forall. intros o _. split; auto. Qed.

Lemma freezes_trans h1 h2 h3 : freezes h1 h2 -> freezes h2 h3 -> freezes h1 h3.
Proof.
  unfold freezes. intros H12 H23. revert h3 H23.
  induction H12 as [|o1 o2 h1 h2 [Hp Hf] _ IH]; intros h3 H23.
  - inversion H23. constructor.
  - inversion H23 as [|? o3 ? h3' [Hp' Hf'] Hrest]; subst.
    constructor; [split; [congruence | auto] | auto].
Qed.

Lemma freezes_lookup h h' l o :
  freezes h h' -> h !! l = Some o ->
  ∃ o', h' !! l = Some o' ∧ props o' = props o
        ∧ (frozen o = true -> frozen o' = true).
Proof.
  intros H Hl. destruct (Forall2_lookup_l _ _ _ _ _ H Hl) as (o' & Hl' & Hp & Hf).
  eauto.
Qed.

Lemma freezes_lookup_None h h' l : freezes h h' -> h !! l = None -> h' !! l = None.
Proof.
  intros H Hl. apply lookup_ge_None. apply lookup_ge_None in Hl.
  rewrite <- (Forall2_length _ _ _ H). exact Hl.
Qed.

Lemma freezes_own_values h h' v : freezes h h' -> own_values h' v = own_values h v.
Proof.
  intros H. destruct v as [| | | | |l]; try reflexivity. unfold own_values.
  destruct (h !! l) as [o|] eqn:Hl.
  - destruct (freezes_lookup _ _ _ _ H Hl) as (o' & -> & Hp & _).
    unfold ownPropertyNames. now rewrite Hp.
  - now rewrite (freezes_lookup_None _ _ _ H Hl).
Qed.

Lemma freezes_isFrozen h h' v :
  freezes h h' -> isFrozen h v = true -> isFrozen h' v = true.
Proof.
  intros H. destruct v as [| | | | |l]; try reflexivity. unfold isFrozen.
  destruct (h !! l) as [o|] eqn:Hl.
  - destruct (freezes_lookup _ _ _ _ H Hl) as (o' & -> & _ & Hf). exact Hf.
  - now rewrite (freezes_lookup_None _ _ _ H Hl).
Qed.

Lemma freeze_freezes h v : freezes h (freeze h v).
Proof.
  destruct v as [| | | | |l]; try apply freezes_refl. cbn.
  apply Forall2_alter_r; [apply freezes_refl |].
  intros o o' _ _ [Hp _]. split; [exact Hp | reflexivity].
Qed.

Lemma isFrozen_freeze h v : isFrozen (freeze h v) v = true.
Proof.
  destruct v as [| | | | |l]; try reflexivity. cbn.
  rewrite list_lookup_alter_eq. now destruct (h !! l).
Qed.

Lemma isFrozen_freeze_other h l l' :
  isFrozen h (VRef l') = false -> isFrozen (freeze h (VRef l)) (VRef l') = true ->
  l' = l.
Proof.
  cbn. intros H H'. destruct (decide (l = l')) as [-> | Hne]; [reflexivity |].
  rewrite list_lookup_alter_ne in H' by assumption. congruence.
Qed.

Lemma freezes_reach h h' v l : freezes h h' -> reach h' v l -> reach h v l.
Proof.
  intros H Hr. induction Hr as [l o Hl | l c l' Hc _ IH].
  - destruct (h !! l) as [o0|] eqn:Hl0; [now apply (reach_here h l o0) |].
    rewrite (freezes_lookup_None _ _ _ H Hl0) in Hl. discriminate.
  - rewrite (freezes_own_values _ _ _ H) in Hc. now apply (reach_child h l c l').
Qed.

(** *** What a call of [deepFreeze] leaves *)

Lemma deepFreeze_fuel_S fuel h o :
  deepFreeze_fuel (S fuel) h o =
    match o with
    | VUndef => Ok (freeze h o)
    | VNull => TypeError
    | _ => fold_left (visit fuel) (own_values (freeze h o) o) (Ok (freeze h o))
    end.
Proof. reflexivity. Qed.


Lemma fold_visit_failed fuel cs (r : result memory) :
  (∀ h, r ≠ Ok h) -> fold_left (visit fuel) cs r = r.
Proof.
  intros Hr. induction cs as [|c cs IH]; [reflexivity |].
  cbn [fold_left]. destruct r as [h | | |]; [now elim (Hr h) | exact IH ..].
Qed.

Lemma fold_visit_Ok fuel cs r h' :
  fold_left (visit fuel) cs r = Ok h' -> ∃ h, r = Ok h.
Proof.
  intros H. destruct r as [h | | |]; [eauto | ..];
    rewrite fold_visit_failed in H by discriminate; discriminate.
Qed.

Section Loop.

Variable fuel : nat.

(** What the recursive calls leave, by induction on the depth. *)
Hypothesis calls :
  ∀ h v h', deepFreeze_fuel fuel h v = Ok h' -> left_by h v h'.

Lemma visit_left_by h c h' :
  visit fuel (Ok h) c = Ok h' ->
  freezes h h' ∧ isFrozen h' c = true
  ∧ (∀ l, isFrozen h (VRef l) = false -> isFrozen h' (VRef l) = true ->
          ∀ c', c' ∈ own_values h' (VRef l) -> isFrozen h' c' = true).
Proof.
  unfold visit. cbn.
  destruct (is_object c && negb (isFrozen h c)) eqn:Hvisit.
  - intros H. apply calls in H as (Hf & Hc & _ & Hnew). auto.
  - intros [= <-]. split; [apply freezes_refl |]. split.
    + destruct c as [| | | | |l]; try reflexivity.
      cbn [is_object andb] in Hvisit.
      destruct (isFrozen h (VRef l)); [reflexivity | discriminate].
    + intros l H1 H2. congruence.
Qed.

Lemma loop_left_by cs h h' :
  fold_left (visit fuel) cs (Ok h) = Ok h' ->
  freezes h h'
  ∧ (∀ c, c ∈ cs -> isFrozen h' c = true)
  ∧ (∀ l, isFrozen h (VRef l) = false -> isFrozen h' (VRef l) = true ->
          ∀ c, c ∈ own_values h' (VRef l) -> isFrozen h' c = true).
Proof.
  revert h. induction cs as [|c cs IH]; intros h H.
  - injection H as <-. split; [apply freezes_refl |]. split.
    + intros c Hc. inversion Hc.
    + intros l H1 H2. congruence.
  - cbn [fold_left] in H.
    destruct (fold_visit_Ok _ _ _ _ H) as [h2 Hstep]. rewrite Hstep in H.
    apply visit_left_by in Hstep as (Hf1 & Hc1 & Hnew1).
    apply IH in H as (Hf2 & Hcs & Hnew2).
    split; [eapply freezes_trans; eassumption |]. split.
    + intros c' Hc'. apply elem_of_cons in Hc' as [-> | Hc'].
      * eapply freezes_isFrozen; eassumption.
      * auto.
    + intros l Hl Hl' c' Hc'.
      destruct (isFrozen h2 (VRef l)) eqn:Hl2.
      * rewrite (freezes_own_values _ _ _ Hf2) in Hc'.
        eapply freezes_isFrozen; [eassumption |]. eapply Hnew1; eassumption.
      * eapply Hnew2; eassumption.
Qed.

End Loop.

Lemma left_by_same h v :
  isFrozen h v = true -> own_values h v = [] -> left_by h v h.
Proof.
  intros Hv Hc. split; [apply freezes_refl |]. split; [exact Hv |]. split.
  - rewrite Hc. intros c H. inversion H.
  - intros l H1 H2. congruence.
Qed.

Lemma deepFreeze_fuel_left_by fuel :
  ∀ h v h', deepFreeze_fuel fuel h v = Ok h' -> left_by h v h'.
Proof.
  induction fuel as [|fuel IH]; intros h v h' H; [discriminate |].
  rewrite deepFreeze_fuel_S in H.
  destruct v as [| |b|n|s|l]; try discriminate;
    try (injection H as <-; now apply left_by_same).
  apply (loop_left_by fuel IH) in H as (Hf & Hcs & Hnew).
  pose proof (freeze_freezes h (VRef l)) as Hf0.
  split; [eapply freezes_trans; eassumption |]. split.
  - eapply freezes_isFrozen; [eassumption | apply isFrozen_freeze].
  - split.
    + intros c Hc. apply Hcs. now rewrite <- (freezes_own_values _ _ _ Hf).
    + intros l' Hl Hl' c Hc.
      destruct (isFrozen (freeze h (VRef l)) (VRef l')) eqn:Hl1.
      * apply (isFrozen_freeze_other _ _ _ Hl) in Hl1 as ->.
        apply Hcs. now rewrite <- (freezes_own_values _ _ _ Hf).
      * eapply Hnew; eassumption.
Qed.

(** *** The recursion ends *)

Lemma unfrozen_freezes h h' : freezes h h' -> unfrozen h' ≤ unfrozen h.
Proof.
  unfold unfrozen. induction 1 as [|o o' h h' [_ Hf] _ IH]; [reflexivity |].
  rewrite !filter_cons.
  destruct (decide (frozen o' = false)) as [Ho' | Ho'];
    destruct (decide (frozen o = false)) as [Ho | Ho]; cbn; try lia.
  apply not_false_is_true in Ho. apply Hf in Ho. congruence.
Qed.

Lemma unfrozen_freeze h l :
  isFrozen h (VRef l) = false -> S (unfrozen (freeze h (VRef l))) = unfrozen h.
Proof.
  unfold unfrozen, freeze, isFrozen. revert l.
  induction h as [|o h IH]; intros l; [discriminate |].
  destruct l as [|l].
  - change ((o :: h) !! 0%nat) with (Some o).
    change (alter freeze_object 0%nat (o :: h)) with (freeze_object o :: h).
    intros Ho. rewrite !filter_cons.
    rewrite decide_False by (cbn; discriminate).
    rewrite decide_True by assumption. reflexivity.
  - change ((o :: h) !! S l) with (h !! l).
    change (alter freeze_object (S l) (o :: h))
      with (o :: alter freeze_object l h).
    intros Hl. rewrite !filter_cons.
    destruct (decide (frozen o = false)); cbn [length];
      rewrite <- (IH l Hl); reflexivity.
Qed.

Lemma loop_returns fuel :
  (∀ h l, isFrozen h (VRef l) = false -> unfrozen h ≤ fuel ->
          ∃ h', deepFreeze_fuel fuel h (VRef l) = Ok h') ->
  ∀ cs h, unfrozen h ≤ fuel -> ∃ h', fold_left (visit fuel) cs (Ok h) = Ok h'.
Proof.
  intros calls cs. induction cs as [|c cs IH]; intros h Hh; [eauto |].
  cbn [fold_left].
  assert (∃ h2, visit fuel (Ok h) c = Ok h2 ∧ unfrozen h2 ≤ fuel) as (h2 & -> & H2).
  { unfold visit. cbn.
    destruct (is_object c && negb (isFrozen h c)) eqn:Hvisit; [| eauto].
    destruct c as [| | | | |l]; try discriminate.
    cbn [is_object andb] in Hvisit.
    destruct (isFrozen h (VRef l)) eqn:Hl; [discriminate |].
    destruct (calls h l Hl Hh) as [h2 H2]. exists h2. split; [exact H2 |].
    apply deepFreeze_fuel_left_by in H2 as [Hf _].
    apply unfrozen_freezes in Hf. lia. }
  now apply IH.
Qed.

Lemma deepFreeze_fuel_returns fuel :
  ∀ h l, isFrozen h (VRef l) = false -> unfrozen h ≤ fuel ->
         ∃ h', deepFreeze_fuel fuel h (VRef l) = Ok h'.
Proof.
  induction fuel as [|fuel IH]; intros h l Hl Hh.
  - apply unfrozen_freeze in Hl. lia.
  - rewrite deepFreeze_fuel_S. apply (loop_returns fuel IH).
    apply unfrozen_freeze in Hl. lia.
Qed.

(** [deepFreeze] returns on everything but [null]. *)
Lemma deepFreeze_returns h v : v ≠ VNull -> ∃ h', deepFreeze h v = Ok h'.
Proof.
  intros Hv. unfold deepFreeze. rewrite deepFreeze_fuel_S.
  destruct v as [| |b|n|s|l]; try solve [cbn; eauto]; [contradiction |].
  apply (loop_returns _ (deepFreeze_fuel_returns _)).
  apply unfrozen_freezes, freeze_freezes.
Qed.

Lemma deepFreeze_null h : deepFreeze h VNull = TypeError.
Proof. reflexivity. Qed.

Lemma deepFreeze_left_by h v h' : deepFreeze h v = Ok h' -> left_by h v h'.
Proof. apply deepFreeze_fuel_left_by. Qed.

(** Two objects that refer to each other: the recursion ends, both are
    frozen. *)
Example deepFreeze_cycle :
  deepFreeze
    [ {| props := [("next"%string, VRef 1)]; frozen := false |};
      {| props := [("next"%string, VRef 0)]; frozen := false |} ]
    (VRef 0)
  = Ok [ {| props := [("next"%string, VRef 1)]; frozen := true |};
         {| props := [("next"%string, VRef 0)]; frozen := true |} ].
Proof. reflexivity. Qed.

(** *** Everything reachable is frozen *)






End HeapFacts.

(** ** Facts about the change event *)

Module NotifyFacts.

Import Heap Store Notions HeapFacts DefaultStore.

Lemma null_or_not (v : value) : v = VNull ∨ v ≠ VNull.
Proof. destruct v; (now left) || (now right). Qed.


(** Calling the resolver on an armed store makes the event due, calling it
    again changes nothing. *)
Lemma ensure_armed w :
  armed w ->
  ∃ w', ensureConfigChangeEvent w = Ok w' ∧ due w'
        ∧ heap w' = heap w ∧ this w' = this w ∧ listeners w' = listeners w
        ∧ delivered w' = delivered w ∧ console w' = console w.
Proof.
  intros (p & He & Hp & Hq). unfold ensureConfigChangeEvent, resolve.
  rewrite He, Hp. cbn. eexists. split; [reflexivity |].
  split; [| now repeat split].
  exists p. cbn. rewrite Hq. repeat split; [exact He |].
  apply list_lookup_insert_eq. now apply lookup_lt_Some in Hp.
Qed.

Lemma ensure_due w :
  due w -> ensureConfigChangeEvent w = Ok w.
Proof.
  intros (p & He & Hp & Hq). unfold ensureConfigChangeEvent, resolve.
  now rewrite He, Hp.
Qed.

Lemma ensure_ready w :
  armed w ∨ due w ->
  ∃ w', ensureConfigChangeEvent w = Ok w' ∧ due w'
        ∧ heap w' = heap w ∧ this w' = this w ∧ listeners w' = listeners w
        ∧ delivered w' = delivered w ∧ console w' = console w.
Proof.
  intros [H | H]; [now apply ensure_armed |].
  exists w. rewrite (ensure_due w H). now repeat split.
Qed.

(** The promise state does not depend on the rest of the world. *)
Lemma ready_with_this f w : armed w ∨ due w -> armed (with_this f w) ∨ due (with_this f w).
Proof. exact (fun H => H). Qed.

Lemma ready_with_heap h w : armed w ∨ due w -> armed (with_heap h w) ∨ due (with_heap h w).
Proof. exact (fun H => H). Qed.

(** A setter call on a constructed store. *)
Lemma set_ready p v w :
  armed w ∨ due w ->
  ∃ w', set p v w = Ok w' ∧ due w'
        ∧ heap w' = heap w ∧ this w' = write p v (this w)
        ∧ listeners w' = listeners w ∧ delivered w' = delivered w
        ∧ console w' = console w.
Proof.
  intros H. unfold set.
  apply (ready_with_this (write p v (this w))) in H.
  apply ensure_ready in H. exact H.
Qed.

Lemma set_calibration_ready v w :
  v ≠ VNull -> armed w ∨ due w ->
  ∃ w', set_calibration v w = Ok w' ∧ due w'
        ∧ deepFreeze (heap w) v = Ok (heap w')
        ∧ this w' = write_calibration v (this w)
        ∧ listeners w' = listeners w ∧ delivered w' = delivered w
        ∧ console w' = console w.
Proof.
  intros Hv H. unfold set_calibration.
  destruct (deepFreeze_returns (heap w) v Hv) as [h Hh]. rewrite Hh. cbn.
  apply (ready_with_heap h) in H.
  apply (ready_with_this (write_calibration v (this w))) in H.
  apply ensure_ready in H as (w' & Hw' & Hdue & Hheap & Hthis & Hrest).
  exists w'. cbn in Hheap. rewrite Hheap. now repeat split.
Qed.

Lemma set_calibration_null w : set_calibration VNull w = TypeError.
Proof. reflexivity. Qed.



(** The checkpoint after a mutation dispatches the event once and re-arms. *)
Lemma checkpoint_due w :
  due w ->
  armed (checkpoint w)
  ∧ delivered (checkpoint w) =
      delivered w ++ map (fun o => (o, this w)) (listeners w)
  ∧ heap (checkpoint w) = heap w ∧ this (checkpoint w) = this w
  ∧ listeners (checkpoint w) = listeners w
  ∧ console (checkpoint w) = console w.
Proof.
  intros (p & He & Hp & Hq). unfold checkpoint. rewrite Hq.
  cbn [fold_left run_job]. unfold fireChanged, new_promise, then_. cbn.
  rewrite lookup_app_r by reflexivity. rewrite Nat.sub_diag. cbn.
  split; [| now repeat split].
  exists (length (promises w)). cbn. repeat split.
  apply list_lookup_insert_eq. rewrite length_app. cbn. lia.
Qed.

Lemma checkpoint_armed w : armed w -> checkpoint w = w.
Proof.
  intros (p & He & Hp & Hq). unfold checkpoint. rewrite Hq.
  destruct w. cbn in *. now subst.
Qed.

Lemma checkpoint_queue w : armed w ∨ due w -> microtasks (checkpoint w) = [].
Proof.
  intros [H | H].
  - rewrite (checkpoint_armed w H). now destruct H as (p & _ & _ & Hq).
  - apply checkpoint_due in H as [(p & _ & _ & Hq) _]. exact Hq.
Qed.


(** *** An invariant of every store the program can be in *)

Lemma constructed_default : constructed default_world.
Proof.
  split; [right | constructor].
  exists 0%nat. now repeat split.
Qed.

Lemma on_message_ready msg w w' :
  on_message msg w = Ok w' -> armed w ∨ due w ->
  (armed w' ∨ due w') ∧ listeners w' = listeners w.
Proof.
  unfold on_message. destruct (devices msg) as [|d ds]; cbn [length Nat.ltb Nat.leb].
  - intros [= <-] H. now split.
  - intros Hset H.
    assert (∃ w1, set_calibration (device_calibration d) w1 = Ok w'
                  ∧ (armed w1 ∨ due w1) ∧ listeners w1 = listeners w)
      as (w1 & Hset1 & H1 & Hl1)
      by (destruct ds; eexists; (split; [exact Hset | now split])).
    destruct (null_or_not (device_calibration d)) as [Hnull | Hv].
    + rewrite Hnull in Hset1. discriminate.
    + destruct (set_calibration_ready _ w1 Hv H1)
        as (w2 & Hw2 & Hdue & _ & _ & Hl & _).
      rewrite Hw2 in Hset1. injection Hset1 as <-.
      split; [now right | congruence].
Qed.

Lemma step_constructed a w w' :
  step a w = Ok w' -> constructed w -> constructed w'.
Proof.
  intros Hstep [H Hnd].
  destruct a as [p v | v | o | o | obj | | msg |]; cbn [step] in Hstep.
  - destruct (set_ready p v w H) as (w2 & Hw2 & Hdue & _ & _ & Hl & _).
    rewrite Hw2 in Hstep. injection Hstep as <-.
    split; [now right | now rewrite Hl].
  - destruct (null_or_not v) as [-> | Hv]; [discriminate |].
    destruct (set_calibration_ready v w Hv H) as (w2 & Hw2 & Hdue & _ & _ & Hl & _).
    rewrite Hw2 in Hstep. injection Hstep as <-.
    split; [now right | now rewrite Hl].
  - injection Hstep as <-. unfold addEventListener.
    destruct (bool_decide (o ∈ listeners w)) eqn:Ho; [now split |].
    split; [exact H |]. cbn. apply NoDup_app. split; [exact Hnd |]. split.
    + intros x Hx Hx'. apply list_elem_of_singleton in Hx' as ->.
      apply bool_decide_eq_false in Ho. contradiction.
    + apply NoDup_singleton.
  - injection Hstep as <-. split; [exact H |]. cbn. now apply NoDup_filter.
  - injection Hstep as <-. now split.
  - injection Hstep as <-. destruct H as [H | H].
    + rewrite (checkpoint_armed w H). split; [now left | exact Hnd].
    + apply checkpoint_due in H as (Harmed & _ & _ & _ & Hl & _).
      split; [now left | now rewrite Hl].
  - destruct (on_message_ready msg w w' Hstep H) as [H' Hl].
    split; [exact H' | now rewrite Hl].
  - injection Hstep as <-. now split.
Qed.

Lemma run_constructed acts w w' :
  run acts w = Ok w' -> constructed w -> constructed w'.
Proof.
  revert w. induction acts as [|a acts IH]; intros w Hrun Hw.
  - injection Hrun as <-. exact Hw.
  - cbn [run] in Hrun. destruct (step a w) as [w1 | | |] eqn:Hstep; try discriminate.
    cbn in Hrun. apply (IH w1 Hrun). eapply step_constructed; eassumption.
Qed.

Lemma reachable_constructed w : reachable w -> constructed w.
Proof.
  intros [acts Hrun]. rewrite makeConfig_default in Hrun.
  eapply run_constructed; [exact Hrun | apply constructed_default].
Qed.

Lemma constructed_armed w : constructed w -> microtasks w = [] -> armed w.
Proof.
  intros [[H | (p & _ & _ & Hq)] _] Hempty; [exact H | congruence].
Qed.

(** *** What a listener receives *)

Lemma received_dispatch o f ls d :
  NoDup ls -> o ∈ ls ->
  map snd (filter (fun e => e.1 = o) (d ++ map (fun o' => (o', f)) ls)) =
  map snd (filter (fun e : nat * fields => e.1 = o) d) ++ [f].
Proof.
  intros Hnd Ho. rewrite filter_app, map_app. f_equal.
  induction Hnd as [|o' ls Hnotin Hnd IH]; [inversion Ho |].
  cbn [map]. rewrite filter_cons. cbn [fst].
  destruct (decide (o' = o)) as [-> | Hne].
  - cbn [map snd]. f_equal.
    clear IH Ho Hnd. induction ls as [|o2 ls IH]; [reflexivity |].
    cbn [map]. rewrite filter_cons. cbn [fst].
    destruct (decide (o2 = o)) as [-> | _].
    + exfalso. apply Hnotin. left.
    + apply IH. intros H. apply Hnotin. now right.
  - apply IH. apply elem_of_cons in Ho as [-> | Ho]; [contradiction | exact Ho].
Qed.



End NotifyFacts.

(** ** Finite numbers *)

Module FiniteFacts.

Import JsNumber NumberFacts.
Local Open Scope R_scope.












End FiniteFacts.

(** ** The derived getters *)

Module GetterFacts.

Import JsNumber Heap Store Notions NumberFacts FiniteFacts DefaultStore.
Local Open Scope R_scope.












End GetterFacts.

(** ** Facts about the store *)

Module StoreFacts.

Import JsNumber Heap Store Notions HeapFacts.

Lemma field_write_same p v f : field p (write p v f) = v.
Proof. destruct f, p; reflexivity. Qed.

Lemma field_write_other p q v f : q ≠ p -> field q (write p v f) = field q f.
Proof. intros Hne. destruct f, p, q; (reflexivity || contradiction). Qed.

Lemma calibration_write p v f : _calibration (write p v f) = _calibration f.
Proof. destruct f, p; reflexivity. Qed.

Lemma resolve_frame p w :
  heap (resolve p w) = heap w ∧ this (resolve p w) = this w.
Proof.
  unfold resolve. destruct (promises w !! p) as [pr|]; [| now split].
  destruct (fulfilled pr); now split.
Qed.


Lemma reachable_subscribed : reachable subscribed_world.
Proof. exists [Checkpoint; Subscribe 7]. vm_compute. reflexivity. Qed.

Lemma calibration_write_calibration v f :
  _calibration (write_calibration v f) = v.
Proof. now destruct f. Qed.




Lemma resolve_console c p w :
  resolve p (with_console c w) = with_console c (resolve p w).
Proof.
  unfold resolve. cbn. destruct (promises w !! p) as [pr|]; [| reflexivity].
  now destruct (fulfilled pr).
Qed.

End StoreFacts.

(** ** The properties of the store *)

Import JsNumber Heap Store Notions.
Import NumberFacts FiniteFacts DefaultStore HeapFacts NotifyFacts GetterFacts.
Import StoreFacts.










(** C4.  On the store the constructor returns, with its defaults and the
    placeholder calibration, [aspect] is 1, [tileWidth] 320,
    [framebufferWidth] 512, [quiltWidth] 1, [quiltHeight] 2 and
    [framebufferHeight] 1024. *)
Theorem default_derived_values :
  ∃ w, makeConfig = Ok w
       ∧ get_param tileHeight w = VNum (Fin 320)
       ∧ get_param numViews w = VNum (Fin 2)
       ∧ calibration_value "screenW" w = Ok (VNum (Fin 250))
       ∧ calibration_value "screenH" w = Ok (VNum (Fin 250))
       ∧ aspect w = Ok (Fin 1)
       ∧ tileWidth w = Ok (Fin 320)
       ∧ framebufferWidth w = Ok (Fin 512)
       ∧ quiltWidth w = Ok (Fin 1)
       ∧ quiltHeight w = Ok (Fin 2)
       ∧ framebufferHeight w = Ok (Fin 1024).
Proof.
  exists default_world. split; [exact makeConfig_default |].
  do 4 (split; [reflexivity |]).
  split; [exact default_aspect |]. split; [exact default_tileWidth |].
  split; [exact default_framebufferWidth |]. split; [exact default_quiltWidth |].
  split; [exact default_quiltHeight | exact default_framebufferHeight].
Qed.




(** C6.  On a message without a device the callback returns: it has logged
    an error and changed nothing else, so the calibration is the one the
    store had, every derived getter returns what it returned, and a setter
    does what it would have done. *)
Theorem no_device_keeps_calibration w :
  ∃ w', on_message (mkMessage []) w = Ok w'
        ∧ console w' = console w ++ [(Error, "No HoloPlay devices found!"%string)]
        ∧ calibration w' = calibration w
        ∧ heap w' = heap w ∧ this w' = this w
        ∧ _ensureConfigChangeEvent w' = _ensureConfigChangeEvent w
        ∧ promises w' = promises w ∧ microtasks w' = microtasks w
        ∧ listeners w' = listeners w ∧ delivered w' = delivered w
        ∧ (∀ g, fst (read g w') = fst (read g w))
        ∧ (∀ p v, set p v w' =
                  match set p v w with
                  | Ok w2 => Ok (with_console (console w') w2)
                  | r => r
                  end).
Proof.
  eexists. split; [reflexivity |]. do 9 (split; [reflexivity |]). split.
  - intros g. now destruct g.
  - intros p v. unfold set, ensureConfigChangeEvent. cbn.
    destruct (_ensureConfigChangeEvent w) as [r|]; [| reflexivity].
    f_equal. apply (resolve_console _ r (with_this (write p v (this w)) w)).
Qed.

(** C7.  On a message with more than one device, the first of which has a
    calibration that is not null, the callback returns: it has logged a
    warning and stored the calibration of the first device; the change event
    is due, and at the next checkpoint every listener receives it, with the
    new calibration in the store. *)
Theorem several_devices_use_first w d d' ds :
  reachable w -> device_calibration d ≠ VNull ->
  ∃ w', on_message (mkMessage (d :: d' :: ds)) w = Ok w'
        ∧ console w' =
            console w ++
            [(Warn, "More than one HoloPlay device found... using the first one"%string)]
        ∧ calibration w' = device_calibration d
        ∧ due w'
        ∧ calibration (checkpoint w') = device_calibration d
        ∧ ∀ o, o ∈ listeners w ->
               received o (checkpoint w') = received o w ++ [this w'].
Proof.
  intros Hreach Hv. apply reachable_constructed in Hreach as [Hready Hnd].
  unfold on_message. cbn [devices length Nat.ltb Nat.leb].
  set (w1 := console_log Warn _ w).
  destruct (set_calibration_ready (device_calibration d) w1 Hv Hready)
    as (w' & Hset & Hdue & _ & Hthis & Hl & Hd & Hc).
  exists w'. split; [exact Hset |]. split; [exact Hc |].
  assert (calibration w' = device_calibration d) as Hcal
    by (unfold calibration; rewrite Hthis; apply calibration_write_calibration).
  split; [exact Hcal |]. split; [exact Hdue |].
  destruct (checkpoint_due w' Hdue) as (_ & Hd' & _ & Hthis' & _).
  split; [unfold calibration in *; now rewrite Hthis' |].
  intros o Ho. unfold received. rewrite Hd', Hl, Hd.
  now apply received_dispatch.
Qed.

Lemma several_devices_use_first_witness :
  ∃ w', on_message (mkMessage [mkDevice (VRef 0); mkDevice VUndef])
          subscribed_world = Ok w'
        ∧ console w' =
            console subscribed_world ++
            [(Warn, "More than one HoloPlay device found... using the first one"%string)]
        ∧ calibration w' = VRef 0
        ∧ due w'
        ∧ calibration (checkpoint w') = VRef 0
        ∧ ∀ o, o ∈ listeners subscribed_world ->
               received o (checkpoint w') = received o subscribed_world ++ [this w'].
Proof.
  apply (several_devices_use_first subscribed_world
           (mkDevice (VRef 0)) (mkDevice VUndef) []).
  - exact reachable_subscribed.
  - discriminate.
Defined.

(** C8.  The constructor returns a store whose parameters are the defaults
    and whose calibration is the placeholder record, value by value. *)
Theorem constructed_defaults :
  ∃ w, makeConfig = Ok w
       ∧ get_param tileHeight w = VNum (Fin 320)
       ∧ get_param numViews w = VNum (Fin 2)
       ∧ get_param trackballX w = VNum (Fin 0)
       ∧ get_param trackballY w = VNum (Fin 0)
       ∧ get_param targetX w = VNum (Fin 0)
       ∧ get_param targetY w = VNum (Fin 1.6)
       ∧ get_param targetZ w = VNum (Fin (-0.5))
       ∧ get_param targetDiam w = VNum (Fin 2.0)
       ∧ get_param fovy w = VNum (Fin (13 / 180 * PI))
       ∧ get_param depthiness w = VNum (Fin 1.25)
       ∧ get_param inlineView w = VNum (Fin 1)
       ∧ calibration w = kFakeCalibration
       ∧ (∃ o, heap w !! 0%nat = Some o
               ∧ ownPropertyNames o =
                   [ "configVersion"; "pitch"; "slope"; "center"; "viewCone";
                     "invView"; "verticalAngle"; "DPI"; "screenW"; "screenH";
                     "flipImageX"; "flipImageY"; "flipSubp" ]%string)
       ∧ get (heap w) (calibration w) "configVersion" = Ok (VStr "1.0")
       ∧ calibration_value "pitch" w = Ok (VNum (Fin 45))
       ∧ calibration_value "slope" w = Ok (VNum (Fin (-5)))
       ∧ calibration_value "center" w = Ok (VNum (Fin (-0.5)))
       ∧ calibration_value "viewCone" w = Ok (VNum (Fin 40))
       ∧ calibration_value "invView" w = Ok (VNum (Fin 1))
       ∧ calibration_value "verticalAngle" w = Ok (VNum (Fin 0))
       ∧ calibration_value "DPI" w = Ok (VNum (Fin 338))
       ∧ calibration_value "screenW" w = Ok (VNum (Fin 250))
       ∧ calibration_value "screenH" w = Ok (VNum (Fin 250))
       ∧ calibration_value "flipImageX" w = Ok (VNum (Fin 0))
       ∧ calibration_value "flipImageY" w = Ok (VNum (Fin 0))
       ∧ calibration_value "flipSubp" w = Ok (VNum (Fin 0)).
Proof.
  exists default_world. split; [exact makeConfig_default |].
  do 8 (split; [reflexivity |]).
  split; [cbn; now rewrite default_fovy |].
  do 3 (split; [reflexivity |]).
  split; [eexists; split; reflexivity |].
  repeat split; reflexivity.
Qed.


(** C10.  On a store whose constructor has armed the change event, the
    setter of a parameter stores the value it is given in the field of that
    parameter and changes neither another parameter, nor the calibration,
    nor the objects of the heap. *)
Theorem setter_frame p v w :
  _ensureConfigChangeEvent w ≠ None ->
  ∃ w', set p v w = Ok w'
        ∧ get_param p w' = v
        ∧ (∀ q, q ≠ p -> get_param q w' = get_param q w)
        ∧ calibration w' = calibration w
        ∧ heap w' = heap w.
Proof.
  intros He. unfold set, ensureConfigChangeEvent. cbn.
  destruct (_ensureConfigChangeEvent w) as [r|]; [| contradiction].
  eexists. split; [reflexivity |].
  unfold get_param, calibration.
  destruct (resolve_frame r (with_this (write p v (this w)) w)) as [-> ->].
  cbn. split; [apply field_write_same |]. split.
  - intros q Hq. now apply field_write_other.
  - split; [apply calibration_write | reflexivity].
Qed.

Lemma setter_frame_witness :
  ∃ w', set depthiness (VNum (Fin 2.5)) default_world = Ok w'
        ∧ get_param depthiness w' = VNum (Fin 2.5)
        ∧ (∀ q, q ≠ depthiness -> get_param q w' = get_param q default_world)
        ∧ calibration w' = calibration default_world
        ∧ heap w' = heap default_world.
Proof.
  apply (setter_frame depthiness (VNum (Fin 2.5)) default_world).
  discriminate.
Defined.

(** ** More facts about [deepFreeze] *)

Module FreezeFacts.

Import Heap Store Notions HeapFacts StoreFacts.

Lemma freeze_frozen h v : isFrozen h v = true -> freeze h v = h.
Proof.
  destruct v as [| | | | |l]; try reflexivity. unfold isFrozen, freeze.
  intros Hl. apply list_eq. intros i.
  destruct (decide (l = i)) as [<- | Hne].
  - rewrite list_lookup_alter_eq. destruct (h !! l) as [[ps fr]|]; [| reflexivity].
    cbn in *. now subst.
  - now rewrite list_lookup_alter_ne.
Qed.

Lemma loop_settled fuel cs h :
  (∀ c, c ∈ cs -> isFrozen h c = true) ->
  fold_left (visit fuel) cs (Ok h) = Ok h.
Proof.
  induction cs as [|c cs IH]; intros Hcs; [reflexivity |].
  cbn [fold_left]. unfold visit at 2. cbn [mbind result_bind bind].
  rewrite (Hcs c) by apply list_elem_of_here.
  rewrite andb_false_r. apply IH. intros c' Hc'. apply Hcs. now right.
Qed.

(** On a value that is frozen together with the objects in its properties,
    [deepFreeze] changes nothing. *)
Lemma deepFreeze_settled h v :
  v ≠ VNull -> isFrozen h v = true ->
  (∀ c, c ∈ own_values h v -> isFrozen h c = true) ->
  deepFreeze h v = Ok h.
Proof.
  intros Hv Hfrozen Hcs. unfold deepFreeze. rewrite deepFreeze_fuel_S.
  rewrite (freeze_frozen h v Hfrozen).
  destruct v as [| |b|n|s|l]; try reflexivity; [contradiction |].
  now apply loop_settled.
Qed.

(** [deepFreeze] leaves alone what cannot be reached from its argument. *)
Lemma freeze_unreached h v l : ¬ reach h v l -> freeze h v !! l = h !! l.
Proof.
  intros Hl. destruct v as [| | | | |l0]; try reflexivity. unfold freeze.
  destruct (decide (l0 = l)) as [-> | Hne]; [| now apply list_lookup_alter_ne].
  rewrite list_lookup_alter_eq. destruct (h !! l) as [o|] eqn:Ho; [| reflexivity].
  elim Hl. now apply (reach_here h l o).
Qed.

Lemma loop_unreached fuel h0 l :
  (∀ h v h', deepFreeze_fuel fuel h v = Ok h' -> ¬ reach h v l ->
             h' !! l = h !! l) ->
  ∀ cs h h',
    fold_left (visit fuel) cs (Ok h) = Ok h' -> freezes h0 h ->
    (∀ c, c ∈ cs -> ¬ reach h0 c l) ->
    h' !! l = h !! l.
Proof.
  intros calls cs. induction cs as [|c cs IH]; intros h h' Hfold Hf Hcs.
  - now injection Hfold as <-.
  - cbn [fold_left] in Hfold.
    destruct (fold_visit_Ok _ _ _ _ Hfold) as [h2 Hstep]. rewrite Hstep in Hfold.
    assert (¬ reach h c l) as Hc.
    { intros Hr. apply (Hcs c); [apply list_elem_of_here |].
      eapply freezes_reach; eassumption. }
    assert (h2 !! l = h !! l ∧ freezes h h2) as [Hl2 Hf2].
    { unfold visit in Hstep. cbn [mbind result_bind bind] in Hstep.
      destruct (is_object c && negb (isFrozen h c)).
      - split; [now apply (calls h c h2) |].
        now apply deepFreeze_fuel_left_by in Hstep as [? _].
      - injection Hstep as <-. split; [reflexivity | apply freezes_refl]. }
    rewrite <- Hl2. apply IH; [exact Hfold | | ].
    + eapply freezes_trans; eassumption.
    + intros c' Hc'. apply Hcs. now right.
Qed.

Lemma deepFreeze_fuel_unreached fuel l :
  ∀ h v h', deepFreeze_fuel fuel h v = Ok h' -> ¬ reach h v l ->
            h' !! l = h !! l.
Proof.
  induction fuel as [|fuel IH]; intros h v h' H Hl; [discriminate |].
  rewrite deepFreeze_fuel_S in H.
  destruct v as [| |b|n|s|l0]; try discriminate;
    try (now injection H as <-).
  rewrite <- (freeze_unreached h (VRef l0) l Hl).
  apply (loop_unreached fuel h l IH) in H; [exact H | apply freeze_freezes |].
  intros c Hc Hr. apply Hl.
  rewrite (freezes_own_values _ _ _ (freeze_freezes h (VRef l0))) in Hc.
  eapply reach_child; eassumption.
Qed.

Lemma resolve_twice p w : resolve p (resolve p w) = resolve p w.
Proof.
  destruct (promises w !! p) as [pr|] eqn:Hp.
  - destruct (fulfilled pr) eqn:Hpr.
    + assert (resolve p w = w) as Hw by (unfold resolve; now rewrite Hp, Hpr).
      now rewrite !Hw.
    + assert (resolve p w =
                with_microtasks (microtasks w ++ reactions pr)
                  (with_promises (<[p := mkPromise true []]> (promises w)) w))
        as Hw by (unfold resolve; now rewrite Hp, Hpr).
      rewrite Hw. unfold resolve. cbn.
      rewrite list_lookup_insert_eq; [reflexivity |].
      now apply lookup_lt_Some in Hp.
  - assert (resolve p w = w) as Hw by (unfold resolve; now rewrite Hp).
    now rewrite !Hw.
Qed.

Lemma resolve_with_this p f w :
  resolve p (with_this f w) = with_this f (resolve p w).
Proof.
  unfold resolve. cbn. destruct (promises w !! p) as [pr|]; [| reflexivity].
  now destruct (fulfilled pr).
Qed.

Lemma resolve_with_heap p h w :
  resolve p (with_heap h w) = with_heap h (resolve p w).
Proof.
  unfold resolve. cbn. destruct (promises w !! p) as [pr|]; [| reflexivity].
  now destruct (fulfilled pr).
Qed.

Lemma resolve_notify p w :
  _ensureConfigChangeEvent (resolve p w) = _ensureConfigChangeEvent w
  ∧ listeners (resolve p w) = listeners w
  ∧ delivered (resolve p w) = delivered w
  ∧ console (resolve p w) = console w.
Proof.
  unfold resolve. destruct (promises w !! p) as [pr|]; [| now repeat split].
  destruct (fulfilled pr); now repeat split.
Qed.

(** What a call of the calibration setter that returns has done. *)
Lemma set_calibration_Ok v w w' :
  set_calibration v w = Ok w' ->
  ∃ h r, deepFreeze (heap w) v = Ok h
         ∧ _ensureConfigChangeEvent w = Some r
         ∧ w' = resolve r (with_this (write_calibration v (this w)) (with_heap h w)).
Proof.
  unfold set_calibration, ensureConfigChangeEvent.
  destruct (deepFreeze (heap w) v) as [h | | |]; try discriminate.
  cbn. destruct (_ensureConfigChangeEvent w) as [r|]; [| discriminate].
  intros [= <-]. now exists h, r.
Qed.

End FreezeFacts.

(** ** More facts about the change event *)

Module ListenerFacts.

Import Heap Store Notions HeapFacts NotifyFacts StoreFacts FreezeFacts.

Lemma received_others o f ls d :
  o ∉ ls ->
  map snd (filter (fun e => e.1 = o) (d ++ map (fun o' => (o', f)) ls)) =
  map snd (filter (fun e : nat * fields => e.1 = o) d).
Proof.
  intros Ho. rewrite filter_app, map_app.
  replace (filter (fun e : nat * fields => e.1 = o) (map (fun o' => (o', f)) ls))
    with (@nil (nat * fields)); [now rewrite app_nil_r |].
  induction ls as [|o' ls IH]; [reflexivity |].
  cbn [map]. rewrite filter_cons. cbn [fst].
  apply not_elem_of_cons in Ho as [Hne Ho].
  destruct (decide (o' = o)) as [-> | _]; [contradiction | now apply IH].
Qed.

Lemma then_frame p j w :
  listeners (then_ p j w) = listeners w ∧ delivered (then_ p j w) = delivered w.
Proof.
  unfold then_. destruct (promises w !! p) as [pr|]; [| now split].
  destruct (fulfilled pr); now split.
Qed.

Lemma fireChanged_silent o w :
  o ∉ listeners w ->
  listeners (fireChanged true w) = listeners w
  ∧ received o (fireChanged true w) = received o w.
Proof.
  intros Ho. unfold fireChanged, new_promise.
  match goal with
  | |- context [then_ ?p ?j ?w0] => destruct (then_frame p j w0) as [Hl Hd]
  end.
  unfold received. rewrite Hl, Hd. cbn. split; [reflexivity |].
  now apply received_others.
Qed.

Lemma jobs_silent o q :
  ∀ w, o ∉ listeners w ->
       listeners (fold_left (fun w' j => run_job j w') q w) = listeners w
       ∧ received o (fold_left (fun w' j => run_job j w') q w) = received o w.
Proof.
  induction q as [|[] q IH]; intros w Ho; [now split |].
  cbn [fold_left run_job].
  destruct (fireChanged_silent o w Ho) as [Hl Hr].
  destruct (IH (fireChanged true w)) as [Hl' Hr']; [now rewrite Hl |].
  split; congruence.
Qed.

Lemma checkpoint_silent o w :
  o ∉ listeners w ->
  listeners (checkpoint w) = listeners w
  ∧ received o (checkpoint w) = received o w.
Proof.
  intros Ho. unfold checkpoint.
  exact (jobs_silent o (microtasks w) (with_microtasks [] w) Ho).
Qed.

Lemma set_notify p v w w' :
  set p v w = Ok w' ->
  listeners w' = listeners w ∧ delivered w' = delivered w.
Proof.
  unfold set, ensureConfigChangeEvent. cbn.
  destruct (_ensureConfigChangeEvent w) as [r|]; [| discriminate].
  intros [= <-].
  now destruct (resolve_notify r (with_this (write p v (this w)) w))
    as (_ & -> & -> & _).
Qed.

Lemma set_calibration_notify v w w' :
  set_calibration v w = Ok w' ->
  listeners w' = listeners w ∧ delivered w' = delivered w.
Proof.
  intros Hset. destruct (set_calibration_Ok v w w' Hset) as (h & r & _ & _ & ->).
  now destruct (resolve_notify r
        (with_this (write_calibration v (this w)) (with_heap h w)))
    as (_ & -> & -> & _).
Qed.

Lemma on_message_notify msg w w' :
  on_message msg w = Ok w' ->
  listeners w' = listeners w ∧ delivered w' = delivered w.
Proof.
  unfold on_message. destruct (devices msg) as [|d ds].
  - intros [= <-]. now split.
  - cbn [length Nat.ltb Nat.leb]. intros Hset.
    destruct ds; apply set_calibration_notify in Hset; exact Hset.
Qed.

Lemma step_silent o a w w' :
  step a w = Ok w' -> keeps_out o a -> o ∉ listeners w ->
  (o ∉ listeners w') ∧ received o w' = received o w.
Proof.
  intros Hstep Ha Ho.
  destruct a as [p v | v | o' | o' | obj | | msg |]; cbn [step] in Hstep.
  - apply set_notify in Hstep as [Hl Hd]. unfold received. now rewrite Hl, Hd.
  - apply set_calibration_notify in Hstep as [Hl Hd].
    unfold received. now rewrite Hl, Hd.
  - injection Hstep as <-. unfold addEventListener.
    destruct (bool_decide (o' ∈ listeners w)); [now split |].
    split; [| reflexivity]. cbn. intros H.
    apply elem_of_app in H as [H | H]; [contradiction |].
    apply list_elem_of_singleton in H. cbn in Ha. congruence.
  - injection Hstep as <-. split; [| reflexivity]. cbn. intros H.
    apply list_elem_of_filter in H as [_ H]. contradiction.
  - injection Hstep as <-. now split.
  - injection Hstep as <-. destruct (checkpoint_silent o w Ho) as [Hl Hr].
    now rewrite Hl.
  - apply on_message_notify in Hstep as [Hl Hd].
    unfold received. now rewrite Hl, Hd.
  - injection Hstep as <-. now split.
Qed.

Lemma run_silent o acts :
  ∀ w w', run acts w = Ok w' -> Forall (keeps_out o) acts -> o ∉ listeners w ->
          received o w' = received o w.
Proof.
  induction acts as [|a acts IH]; intros w w' Hrun Hacts Ho.
  - now injection Hrun as <-.
  - cbn [run] in Hrun.
    destruct (step a w) as [w1 | | |] eqn:Hstep; try discriminate.
    cbn in Hrun. apply Forall_cons in Hacts as [Ha Hacts].
    destruct (step_silent o a w w1 Hstep Ha Ho) as [Ho1 Hr1].
    rewrite <- Hr1. now apply IH.
Qed.

Lemma step_quiet a w :
  armed w -> quiet a ->
  ∃ w', step a w = Ok w' ∧ armed w'
        ∧ delivered w' = delivered w ∧ this w' = this w.
Proof.
  intros Hw Ha.
  destruct a as [p v | v | o | o | obj | | msg |]; cbn [step]; try contradiction.
  - eexists. split; [reflexivity |]. unfold addEventListener.
    destruct (bool_decide (o ∈ listeners w)); now repeat split.
  - eexists. split; [reflexivity |]. now repeat split.
  - eexists. split; [reflexivity |]. now repeat split.
  - eexists. split; [reflexivity |]. rewrite (checkpoint_armed w Hw).
    now repeat split.
  - cbn in Ha. unfold on_message. rewrite Ha. cbn.
    eexists. split; [reflexivity |]. now repeat split.
  - eexists. split; [reflexivity |]. now repeat split.
Qed.

Lemma run_quiet acts :
  ∀ w, armed w -> Forall quiet acts ->
       ∃ w', run acts w = Ok w' ∧ armed w'
             ∧ delivered w' = delivered w ∧ this w' = this w.
Proof.
  induction acts as [|a acts IH]; intros w Hw Hacts.
  - exists w. now repeat split.
  - apply Forall_cons in Hacts as [Ha Hacts].
    destruct (step_quiet a w Hw Ha) as (w1 & Hstep & Hw1 & Hd1 & Ht1).
    destruct (IH w1 Hw1 Hacts) as (w' & Hrun & Hw' & Hd & Ht).
    exists w'. cbn [run]. rewrite Hstep. cbn.
    repeat split; try assumption; congruence.
Qed.

(** Without a calibration every derived getter throws. *)
Lemma calibration_value_throws k w :
  calibration w = VUndef ∨ calibration w = VNull ->
  calibration_value k w = TypeError.
Proof. unfold calibration_value. now intros [-> | ->]. Qed.

Lemma getters_throw w :
  calibration w = VUndef ∨ calibration w = VNull ->
  ∀ g, fst (read g w) = TypeError.
Proof.
  intros Hc.
  assert (aspect w = TypeError) as Ha
    by (unfold aspect; now rewrite !calibration_value_throws by exact Hc).
  assert (tileWidth w = TypeError) as Htw by (unfold tileWidth; now rewrite Ha).
  assert (numPixels w = TypeError) as Hnp by (unfold numPixels; now rewrite Htw).
  assert (framebufferWidth w = TypeError) as Hfw
    by (unfold framebufferWidth; now rewrite Hnp).
  assert (quiltWidth w = TypeError) as Hqw by (unfold quiltWidth; now rewrite Hfw).
  assert (quiltHeight w = TypeError) as Hqh
    by (unfold quiltHeight; now rewrite Hqw).
  intros g. destruct g; cbn [read fst]; try assumption.
  - unfold framebufferHeight. now rewrite Hqh.
  - unfold viewCone. now rewrite !calibration_value_throws by exact Hc.
  - unfold tilt. now rewrite !calibration_value_throws by exact Hc.
  - unfold subp. now rewrite !calibration_value_throws by exact Hc.
  - unfold pitch. now rewrite !calibration_value_throws by exact Hc.
Qed.

End ListenerFacts.

(** ** More facts about numbers *)

Module RoundingFacts.

Import JsNumber NumberFacts FiniteFacts Notions.
Local Open Scope R_scope.


Lemma mul_one a : mul a (Fin 1) = a.
Proof.
  destruct a as [|s| |x]; unfold mul, is_zero, signbit, val.
  - reflexivity.
  - rewrite Reqb_false by lra. rewrite Rltb_false by lra. now rewrite xorb_false_r.
  - rewrite Rltb_false by lra. cbn. unfold signed. now rewrite Reqb_true by lra.
  - rewrite (Rltb_false 1 0) by lra. rewrite xorb_false_r. unfold signed, Reqb.
    destruct (Req_dec_T (x * 1) 0) as [H0 | _].
    + assert (x = 0) as -> by lra. now rewrite Rltb_false by lra.
    + f_equal. lra.
Qed.

Lemma mul_minus_one a : mul a (Fin (-1)) = opposite a.
Proof.
  destruct a as [|s| |x]; unfold mul, opposite, is_zero, signbit, val.
  - reflexivity.
  - rewrite Reqb_false by lra. rewrite Rltb_true by lra. now rewrite xorb_true_r.
  - rewrite Rltb_true by lra. cbn. unfold signed. now rewrite Reqb_true by lra.
  - rewrite (Rltb_true (-1) 0) by lra. rewrite xorb_true_r. unfold signed, Reqb.
    destruct (Req_dec_T (x * -1) 0) as [H0 | Hne];
      destruct (Req_dec_T x 0) as [Hx | Hx]; try lra.
    + subst x. now rewrite Rltb_false by lra.
    + f_equal. lra.
Qed.

End RoundingFacts.

(** ** More facts about the quilt *)

Module QuiltFacts.

Import JsNumber Heap Store Notions NumberFacts FiniteFacts GetterFacts.
Local Open Scope R_scope.



End QuiltFacts.

(** ** More facts about the setters *)

Module SetterFacts.

Import JsNumber Heap Store Notions StoreFacts FreezeFacts.

Lemma with_heap_same w : with_heap (heap w) w = w.
Proof. now destruct w. Qed.

Lemma with_this_same w : with_this (this w) w = w.
Proof. now destruct w. Qed.

Lemma write_calibration_twice v f :
  write_calibration v (write_calibration v f) = write_calibration v f.
Proof. now destruct f. Qed.

Lemma module_heap_record_shaped : record_shaped module_heap kFakeCalibration.
Proof.
  intros c Hc c' Hc'. apply list_elem_of_In in Hc. cbn in Hc.
  repeat (destruct Hc as [<- | Hc];
          [apply list_elem_of_In in Hc'; cbn in Hc';
           repeat (destruct Hc' as [<- | Hc']; [reflexivity |]);
           contradiction |]).
  contradiction.
Qed.

Lemma write_write p v u f : write p u (write p v f) = write p u f.
Proof. destruct f, p; reflexivity. Qed.

Lemma write_commute p q v u f :
  p ≠ q -> write q u (write p v f) = write p v (write q u f).
Proof. intros Hne. destruct f, p, q; (reflexivity || contradiction). Qed.

Lemma set_Ok p v w r :
  _ensureConfigChangeEvent w = Some r ->
  set p v w = Ok (resolve r (with_this (write p v (this w)) w)).
Proof. intros He. unfold set, ensureConfigChangeEvent. cbn. now rewrite He. Qed.

Lemma set_set p q v u w r :
  _ensureConfigChangeEvent w = Some r ->
  (w1 ← set p v w; set q u w1)
  = Ok (resolve r (with_this (write q u (write p v (this w))) w)).
Proof.
  intros He. rewrite (set_Ok p v w r He). cbn [mbind result_bind bind].
  set (w0 := with_this (write p v (this w)) w).
  destruct (resolve_frame r w0) as [_ Hthis].
  destruct (resolve_notify r w0) as [He1 _].
  rewrite (set_Ok q u (resolve r w0) r) by (rewrite He1; exact He).
  rewrite Hthis, resolve_with_this, resolve_twice, <- resolve_with_this.
  reflexivity.
Qed.

End SetterFacts.

(** ** Further properties: the calibration setter and [deepFreeze] *)

Import FreezeFacts SetterFacts.


(** The calibration setter stores the value it is given and freezes objects
    that can be reached from it.  It does nothing else: the parameters, the
    properties of every object, the objects that cannot be reached from the
    value, the listeners and the console are as before, and what was frozen
    still is. *)
Theorem set_calibration_frame v w w' :
  set_calibration v w = Ok w' ->
  calibration w' = v
  ∧ (∀ p, get_param p w' = get_param p w)
  ∧ length (heap w') = length (heap w)
  ∧ (∀ l o, heap w !! l = Some o ->
            ∃ o', heap w' !! l = Some o' ∧ props o' = props o
                  ∧ (frozen o = true -> frozen o' = true)
                  ∧ (¬ reach (heap w) v l -> o' = o))
  ∧ listeners w' = listeners w
  ∧ delivered w' = delivered w
  ∧ console w' = console w.
Proof.
  intros Hset. destruct (set_calibration_Ok v w w' Hset) as (h & r & Hh & _ & ->).
  set (w1 := with_this _ _).
  destruct (resolve_frame r w1) as [Hheap Hthis].
  destruct (resolve_notify r w1) as (_ & Hl & Hd & Hc).
  unfold calibration, get_param. rewrite Hheap, Hthis, Hl, Hd, Hc. subst w1. cbn.
  pose proof (deepFreeze_left_by _ _ _ Hh) as [Hf _].
  split; [apply calibration_write_calibration |].
  split; [intros p; destruct (this w), p; reflexivity |].
  split; [symmetry; apply (Forall2_length _ _ _ Hf) |].
  split; [| now repeat split].
  intros l o Hl0. destruct (freezes_lookup _ _ _ _ Hf Hl0) as (o' & Hl' & Hp & Hfr).
  exists o'. repeat split; try assumption.
  intros Hunreached.
  pose proof (deepFreeze_fuel_unreached _ l _ _ _ Hh Hunreached) as Heq.
  congruence.
Qed.

Lemma set_calibration_frame_witness :
  ∃ w', set_calibration (VRef 15) nested_world = Ok w'
        ∧ calibration w' = VRef 15
        ∧ (∀ p, get_param p w' = get_param p nested_world)
        ∧ length (heap w') = length (heap nested_world)
        ∧ listeners w' = listeners nested_world.
Proof.
  eassert (set_calibration (VRef 15) nested_world = Ok _) as Hset
    by (vm_compute; reflexivity).
  eexists. split; [exact Hset |].
  pose proof (set_calibration_frame (VRef 15) nested_world _ Hset)
    as (Hc & Hp & Hlen & _ & Hl & _).
  now repeat split.
Defined.

(** Assigning the same calibration a second time changes nothing at all:
    the heap, the store and the pending change event are as the first
    assignment left them. *)
Theorem set_calibration_again v w w1 :
  set_calibration v w = Ok w1 -> set_calibration v w1 = Ok w1.
Proof.
  intros Hset. destruct (set_calibration_Ok v w w1 Hset) as (h & r & Hh & He & Hw1).
  assert (v ≠ VNull) as Hv by (intros ->; discriminate).
  set (w0 := with_this _ _) in Hw1.
  assert (heap w1 = h) as Hheap
    by (rewrite Hw1; now destruct (resolve_frame r w0) as [-> _]).
  assert (this w1 = write_calibration v (this w)) as Hthis
    by (rewrite Hw1; now destruct (resolve_frame r w0) as [_ ->]).
  assert (_ensureConfigChangeEvent w1 = Some r) as He1
    by (rewrite Hw1; now destruct (resolve_notify r w0) as [-> _]).
  destruct (deepFreeze_left_by _ _ _ Hh) as (_ & Hroot & Hcs & _).
  unfold set_calibration, ensureConfigChangeEvent.
  rewrite Hheap, (deepFreeze_settled h v Hv Hroot Hcs). cbn.
  rewrite He1, Hthis, write_calibration_twice, <- Hthis, <- Hheap.
  rewrite with_heap_same, with_this_same.
  f_equal. rewrite Hw1 at 1 2. apply resolve_twice.
Qed.

Lemma set_calibration_again_witness :
  ∃ w1, set_calibration (VRef 13) nested_world = Ok w1
        ∧ set_calibration (VRef 13) w1 = Ok w1.
Proof.
  eassert (set_calibration (VRef 13) nested_world = Ok _) as Hset
    by (vm_compute; reflexivity).
  eexists. split; [exact Hset |].
  exact (set_calibration_again (VRef 13) nested_world _ Hset).
Defined.

(** For a calibration of the shape of a record (fields that are objects
    holding no object), everything reachable from the stored calibration is
    frozen once the setter has returned, whatever was frozen before. *)
Theorem calibration_record_frozen v w w' :
  set_calibration v w = Ok w' -> record_shaped (heap w) v ->
  ∀ l, reach (heap w') (calibration w') l -> isFrozen (heap w') (VRef l) = true.
Proof.
  intros Hset Hshape l Hl.
  destruct (set_calibration_Ok v w w' Hset) as (h & r & Hh & _ & Hw').
  destruct (resolve_frame r
              (with_this (write_calibration v (this w)) (with_heap h w)))
    as [Hheap Hthis].
  rewrite <- Hw' in Hheap, Hthis. cbn in Hheap, Hthis.
  assert (calibration w' = v) as Hcal
    by (unfold calibration; rewrite Hthis; apply calibration_write_calibration).
  rewrite Hcal in Hl. rewrite Hheap in Hl |- *. clear Hcal Hheap Hw' Hset.
  destruct (deepFreeze_left_by _ _ _ Hh) as (Hf & Hroot & Hcs & _). clear Hh.
  inversion Hl as [l0 o Ho | l0 c l1 Hc Hr]; subst; [exact Hroot |].
  pose proof (Hcs c Hc) as Hcfrozen.
  inversion Hr as [l2 o Ho | l2 c' l3 Hc' Hr']; subst; [exact Hcfrozen |].
  rewrite (freezes_own_values _ _ _ Hf) in Hc.
  rewrite (freezes_own_values _ _ _ Hf) in Hc'.
  pose proof (Hshape _ Hc _ Hc') as Hleaf.
  inversion Hr'; subst; discriminate.
Qed.


Lemma calibration_record_frozen_witness :
  ∃ w', set_calibration kFakeCalibration (fireChanged false (start module_heap))
          = Ok w'
        ∧ ∀ l, reach (heap w') (calibration w') l ->
               isFrozen (heap w') (VRef l) = true.
Proof.
  eassert (set_calibration kFakeCalibration
             (fireChanged false (start module_heap)) = Ok _) as Hset
    by (vm_compute; reflexivity).
  eexists. split; [exact Hset |].
  exact (calibration_record_frozen kFakeCalibration
           (fireChanged false (start module_heap)) _ Hset
           module_heap_record_shaped).
Defined.

(** ** Further properties: the setters *)



(** Two setter calls in a row.  On the same parameter the second value
    wins; on two parameters the order of the calls does not matter.  Either
    way the store, the pending change event included, is the one a single
    call of the combined assignment would leave. *)
Theorem setters_compose p q v u w :
  _ensureConfigChangeEvent w ≠ None ->
  ∃ w2, (w1 ← set p v w; set q u w1) = Ok w2
        ∧ get_param q w2 = u
        ∧ (p = q -> set q u w = Ok w2)
        ∧ (p ≠ q -> (w1 ← set q u w; set p v w1) = Ok w2
                    ∧ get_param p w2 = v).
Proof.
  intros He. destruct (_ensureConfigChangeEvent w) as [r|] eqn:Hr;
    [clear He | contradiction].
  eexists. split; [apply (set_set p q v u w r Hr) |].
  set (w0 := with_this _ w).
  destruct (resolve_frame r w0) as [_ Hthis]. unfold get_param. rewrite Hthis.
  subst w0. cbn. split; [apply field_write_same |]. split.
  - intros ->. rewrite write_write. apply (set_Ok q u w r Hr).
  - intros Hne. rewrite (set_set q p u v w r Hr).
    rewrite (write_commute p q v u _ Hne). split; [reflexivity |].
    apply field_write_same.
Qed.

Lemma setters_compose_witness :
  ∃ w2, (w1 ← set tileHeight (VNum (Fin 1)) default_world;
         set numViews (VNum (Fin 3)) w1) = Ok w2
        ∧ get_param numViews w2 = VNum (Fin 3)
        ∧ (tileHeight = numViews -> set numViews (VNum (Fin 3)) default_world = Ok w2)
        ∧ (tileHeight ≠ numViews ->
           (w1 ← set numViews (VNum (Fin 3)) default_world;
            set tileHeight (VNum (Fin 1)) w1) = Ok w2
           ∧ get_param tileHeight w2 = VNum (Fin 1)).
Proof.
  apply (setters_compose tileHeight numViews (VNum (Fin 1)) (VNum (Fin 3))
           default_world).
  discriminate.
Defined.

(** ** Further properties: the change event and the client callbacks *)

Import ListenerFacts.

(** A listener added after a mutation but before the microtasks run still
    receives the notification of that mutation.  So a listener added right
    after the store is made receives one for the constructor's own setter
    calls. *)
Theorem late_listener_notified o w :
  reachable w -> due w -> o ∉ listeners w ->
  received o (checkpoint (addEventListener o w)) = received o w ++ [this w].
Proof.
  intros Hw Hdue Ho. apply reachable_constructed in Hw as [_ Hnd].
  unfold addEventListener. rewrite bool_decide_eq_false_2 by exact Ho.
  set (w1 := with_listeners _ w).
  destruct (checkpoint_due w1 Hdue) as (_ & Hd & _).
  unfold received. rewrite Hd. subst w1. cbn.
  apply received_dispatch.
  - apply NoDup_app. split; [exact Hnd |]. split; [| apply NoDup_singleton].
    intros x Hx Hx'. apply list_elem_of_singleton in Hx' as ->. contradiction.
  - apply elem_of_app. right. apply list_elem_of_here.
Qed.

Lemma late_listener_notified_witness :
  received 7 (checkpoint (addEventListener 7 default_world))
  = received 7 default_world ++ [this default_world].
Proof.
  apply (late_listener_notified 7 default_world).
  - exists []. vm_compute. reflexivity.
  - exists 0%nat. now repeat split.
  - intros H. inversion H.
Defined.

(** A listener that has been removed receives nothing, whatever happens to
    the store afterwards, until it is added again. *)
Theorem removed_listener_silent o acts w w' :
  run (Unsubscribe o :: acts) w = Ok w' -> Forall (keeps_out o) acts ->
  received o w' = received o w.
Proof.
  intros Hrun Hacts. cbn [run step] in Hrun. cbn in Hrun.
  apply (run_silent o acts _ _ Hrun Hacts). cbn.
  intros H. apply list_elem_of_filter in H as [H _]. now apply H.
Qed.

Lemma removed_listener_silent_witness :
  ∃ w', run [ Unsubscribe 7; SetParam tileHeight (VNum (Fin 1)); Checkpoint;
              Message (mkMessage [mkDevice (VRef 0)]); Checkpoint ]
          subscribed_world = Ok w'
        ∧ received 7 w' = received 7 subscribed_world.
Proof.
  eassert (run [ Unsubscribe 7; SetParam tileHeight (VNum (Fin 1)); Checkpoint;
                 Message (mkMessage [mkDevice (VRef 0)]); Checkpoint ]
             subscribed_world = Ok _) as Hrun
    by (vm_compute; reflexivity).
  eexists. split; [exact Hrun |].
  apply (removed_listener_silent 7
           [ SetParam tileHeight (VNum (Fin 1)); Checkpoint;
             Message (mkMessage [mkDevice (VRef 0)]); Checkpoint ]
           subscribed_world _ Hrun).
  repeat constructor.
Defined.

(** Nothing but a setter call leads to a notification: changes of
    subscription, new objects, checkpoints, errors of the client and
    messages without a device all return, and leave the store and what the
    listeners have received as they were. *)
Theorem no_mutation_no_notification acts w :
  reachable w -> microtasks w = [] -> Forall quiet acts ->
  ∃ w', run acts w = Ok w'
        ∧ delivered w' = delivered w
        ∧ this w' = this w
        ∧ microtasks w' = [].
Proof.
  intros Hw Hq Hacts. apply reachable_constructed in Hw.
  pose proof (constructed_armed w Hw Hq) as Harmed.
  destruct (run_quiet acts w Harmed Hacts) as (w' & Hrun & Harmed' & Hd & Ht).
  exists w'. repeat split; try assumption.
  now destruct Harmed' as (p & _ & _ & Hq').
Qed.

Lemma no_mutation_no_notification_witness :
  ∃ w', run [ ClientError; Checkpoint; Message (mkMessage []); Subscribe 8;
              Checkpoint; Unsubscribe 7 ] subscribed_world = Ok w'
        ∧ delivered w' = delivered subscribed_world
        ∧ this w' = this subscribed_world
        ∧ microtasks w' = [].
Proof.
  apply (no_mutation_no_notification
           [ ClientError; Checkpoint; Message (mkMessage []); Subscribe 8;
             Checkpoint; Unsubscribe 7 ] subscribed_world).
  - exact reachable_subscribed.
  - vm_compute. reflexivity.
  - repeat constructor.
Defined.

(** On a message with exactly one device, whose calibration is not null,
    the callback logs nothing and stores that calibration; every listener
    receives the change at the next checkpoint. *)
Theorem single_device_no_warning w d :
  reachable w -> device_calibration d ≠ VNull ->
  ∃ w', on_message (mkMessage [d]) w = Ok w'
        ∧ console w' = console w
        ∧ calibration w' = device_calibration d
        ∧ (∀ p, get_param p w' = get_param p w)
        ∧ ∀ o, o ∈ listeners w ->
               received o (checkpoint w') = received o w ++ [this w'].
Proof.
  intros Hreach Hv. apply reachable_constructed in Hreach as [Hready Hnd].
  unfold on_message. cbn [devices length Nat.ltb Nat.leb].
  destruct (set_calibration_ready (device_calibration d) w Hv Hready)
    as (w' & Hset & Hdue & _ & Hthis & Hl & Hd & Hc).
  exists w'. split; [exact Hset |]. split; [exact Hc |].
  split; [unfold calibration; rewrite Hthis; apply calibration_write_calibration |].
  split; [intros p; unfold get_param; rewrite Hthis;
          destruct (this w), p; reflexivity |].
  destruct (checkpoint_due w' Hdue) as (_ & Hd' & _).
  intros o Ho. unfold received. rewrite Hd', Hl, Hd.
  now apply received_dispatch.
Qed.

Lemma single_device_no_warning_witness :
  ∃ w', on_message (mkMessage [mkDevice (VRef 0)]) subscribed_world = Ok w'
        ∧ console w' = console subscribed_world
        ∧ calibration w' = VRef 0
        ∧ (∀ p, get_param p w' = get_param p subscribed_world)
        ∧ ∀ o, o ∈ listeners subscribed_world ->
               received o (checkpoint w') = received o subscribed_world ++ [this w'].
Proof.
  apply (single_device_no_warning subscribed_world (mkDevice (VRef 0))).
  - exact reachable_subscribed.
  - discriminate.
Defined.

(** A first device without a calibration is accepted: [undefined] is stored
    as the calibration, and from then on every derived getter throws. *)
Theorem device_without_calibration w ds :
  reachable w ->
  ∃ w', on_message (mkMessage (mkDevice VUndef :: ds)) w = Ok w'
        ∧ calibration w' = VUndef
        ∧ heap w' = heap w
        ∧ ∀ g, fst (read g w') = TypeError.
Proof.
  intros Hreach. apply reachable_constructed in Hreach as [Hready _].
  assert (∀ w1, armed w1 ∨ due w1 -> heap w1 = heap w ->
                ∃ w', set_calibration VUndef w1 = Ok w'
                      ∧ calibration w' = VUndef ∧ heap w' = heap w
                      ∧ ∀ g, fst (read g w') = TypeError) as Hset.
  { intros w1 H1 Hh1.
    destruct (set_calibration_ready VUndef w1) as (w' & Hset & _ & Hh & Hthis & _);
      [discriminate | exact H1 |].
    assert (calibration w' = VUndef) as Hcal
      by (unfold calibration; rewrite Hthis; apply calibration_write_calibration).
    exists w'. split; [exact Hset |]. split; [exact Hcal |]. split.
    - cbn in Hh. injection Hh as <-. exact Hh1.
    - apply getters_throw. now left. }
  unfold on_message. cbn [devices length Nat.ltb Nat.leb device_calibration].
  destruct ds as [|d ds]; now apply Hset.
Qed.

Lemma device_without_calibration_witness :
  ∃ w', on_message (mkMessage [mkDevice VUndef]) subscribed_world = Ok w'
        ∧ calibration w' = VUndef
        ∧ heap w' = heap subscribed_world
        ∧ ∀ g, fst (read g w') = TypeError.
Proof.
  apply (device_without_calibration subscribed_world []).
  exact reachable_subscribed.
Defined.

(** ** Further properties: the derived getters *)

Import RoundingFacts QuiltFacts.









(** [tilt] is [screenH / (screenW * slope)] when [flipImageX] is falsy (a
    zero, NaN, undefined, null, false, the empty string) and the opposite
    number when it is truthy. *)
Theorem tilt_flip w sh sw sl fx :
  calibration_value "screenH" w = Ok (VNum sh) ->
  calibration_value "screenW" w = Ok (VNum sw) ->
  calibration_value "slope" w = Ok (VNum sl) ->
  calibration_value "flipImageX" w = Ok fx ->
  tilt w = Ok (if to_boolean fx
               then opposite (div sh (mul sw sl))
               else div sh (mul sw sl)).
Proof.
  intros Hsh Hsw Hsl Hfx. unfold tilt. rewrite Hsh, Hsw, Hsl, Hfx. cbn.
  destruct (to_boolean fx); f_equal; [apply mul_minus_one | apply mul_one].
Qed.

Lemma tilt_flip_witness :
  tilt default_world
  = Ok (if to_boolean (VNum (Fin 0))
        then opposite (div (Fin 250) (mul (Fin 250) (Fin (-5))))
        else div (Fin 250) (mul (Fin 250) (Fin (-5)))).
Proof.
  apply (tilt_flip default_world (Fin 250) (Fin 250) (Fin (-5)) (VNum (Fin 0)));
    reflexivity.
Defined.

Ltac in_list :=
  repeat first [apply list_elem_of_here | apply list_elem_of_further].

(** With a calibration whose fields the getters read hold numbers, and
    parameters that are numbers, no derived getter throws, whatever the
    numbers are: a zero, a negative or a missing measure gives a result that
    is NaN or infinite, not an exception. *)
Theorem getters_return w :
  (∀ k, k ∈ ["screenW"; "screenH"; "slope"; "viewCone"; "flipImageX"; "DPI";
             "pitch"]%string ->
        ∃ n, calibration_value k w = Ok (VNum n)) ->
  (∀ p, p ∈ [tileHeight; numViews; depthiness] -> ∃ n, get_param p w = VNum n) ->
  ∀ g, ∃ n, fst (read g w) = Ok n.
Proof.
  intros Hcal Hpar.
  destruct (Hcal "screenW"%string) as [sw Hsw]; [in_list |].
  destruct (Hcal "screenH"%string) as [sh Hsh]; [in_list |].
  destruct (Hcal "slope"%string) as [sl Hsl]; [in_list |].
  destruct (Hcal "viewCone"%string) as [vc Hvc]; [in_list |].
  destruct (Hcal "flipImageX"%string) as [fx Hfx]; [in_list |].
  destruct (Hcal "DPI"%string) as [dpi Hdpi]; [in_list |].
  destruct (Hcal "pitch"%string) as [pi Hpi]; [in_list |].
  destruct (Hpar tileHeight) as [th Hth]; [in_list |].
  destruct (Hpar numViews) as [nv Hnv]; [in_list |].
  destruct (Hpar depthiness) as [dp Hdp]; [in_list |].
  assert (∃ n, aspect w = Ok n) as [a Ha]
    by (eexists; unfold aspect; rewrite Hsw, Hsh; reflexivity).
  assert (∃ n, tileWidth w = Ok n) as [tw Htw]
    by (eexists; unfold tileWidth; rewrite Ha, Hth; reflexivity).
  assert (∃ n, numPixels w = Ok n) as [np Hnp]
    by (eexists; unfold numPixels; rewrite Htw, Hth, Hnv; reflexivity).
  assert (∃ n, framebufferWidth w = Ok n) as [fw Hfw]
    by (eexists; unfold framebufferWidth; rewrite Hnp, Htw; reflexivity).
  assert (∃ n, quiltWidth w = Ok n) as [qw Hqw]
    by (eexists; unfold quiltWidth; rewrite Hfw, Htw; reflexivity).
  assert (∃ n, quiltHeight w = Ok n) as [qh Hqh]
    by (eexists; unfold quiltHeight; rewrite Hqw, Hnv; reflexivity).
  intros g. destruct g; cbn [read fst]; eauto.
  - eexists. unfold framebufferHeight. rewrite Hqh, Hth. reflexivity.
  - eexists. unfold viewCone. rewrite Hvc, Hdp. reflexivity.
  - eexists. unfold tilt. rewrite Hsh, Hsw, Hsl, Hfx. reflexivity.
  - eexists. unfold subp. rewrite Hsw. reflexivity.
  - eexists. unfold pitch. rewrite Hsw, Hdpi, Hpi, Hsl. reflexivity.
Qed.

Lemma getters_return_witness :
  ∃ n, fst (read g_quiltWidth zero_height_world) = Ok n.
Proof.
  refine (getters_return zero_height_world _ _ g_quiltWidth).
  - intros k Hk. apply list_elem_of_In in Hk. cbn in Hk.
    repeat (destruct Hk as [<- | Hk]; [eexists; reflexivity |]). contradiction.
  - intros p Hp. apply list_elem_of_In in Hp. cbn in Hp.
    repeat (destruct Hp as [<- | Hp]; [eexists; reflexivity |]). contradiction.
Defined.
